(** * Change propagation of the dashboard: broadcast hub and index synchronizer

    A shallow embedding of the two server processes of the dashboard:
    - [server/websocket.ts]: the WebSocket server that watches the
      [messages] and [activated_chats] collections and pushes frames to
      the connected viewers ([startServer]);
    - [server/sync-meilisearch.ts]: the backfill ([syncMessages]) and the
      incremental synchronizer ([watchAndSync]) of the search index.

    Conventions of the model.
    - A JavaScript value is a [Value]; numbers are integers (channel
      identifiers are Telegram chat ids), objects and arrays are known by
      their reference only.
    - A [Set] is a duplicate-free list in insertion order.
    - Code that can raise is written in the exception monad [Exc];
      [try_catch] is the [try { } catch { }] block.
    - Event handlers are functions on the state of the process; a run of
      the process is a fold of its handler over the events it receives. *)

From stdpp Require Import gmap strings list fin_maps pretty.
From Stdlib Require Import ZArith.

Set Warnings "-clear-no-such-hyp".

Open Scope Z_scope.
Open Scope nat_scope.

(** ** JavaScript values *)

Inductive Value :=
| VUndefined
| VNull
| VBool (b : bool)
| VNum (n : Z)
| VStr (s : string)
| VObj (ref : nat).

#[global] Instance Value_eq_dec : EqDecision Value.
Proof. solve_decision. Defined.

(** ToBoolean: [undefined], [null], [false], [0] and the empty string are
    falsy; every object is truthy. *)
Definition truthy (v : Value) : bool :=
  match v with
  | VUndefined | VNull => false
  | VBool b => b
  | VNum n => negb (n =? 0)%Z
  | VStr s => negb (String.eqb s "")
  | VObj _ => true
  end.

(** A field that may hold a [Date]. A [Date] is known by what its
    [toISOString()] gives: the text, or [None] when it raises [RangeError]
    (an invalid date). *)
Inductive DateVal :=
| DateObj (iso : option string)
| NotDate (v : Value).

#[global] Instance DateVal_eq_dec : EqDecision DateVal.
Proof. solve_decision. Defined.

(** ** Exceptions *)

Inductive JsError := SyntaxError | TypeError | RangeError | IndexStoreError.

Inductive Exc (A : Type) :=
| Ok (a : A)
| Throw (e : JsError).
Arguments Ok {A} a.
Arguments Throw {A} e.

#[global] Instance Exc_ret : MRet Exc := @Ok.
#[global] Instance Exc_bind : MBind Exc :=
  λ A B f m, match m with Ok a => f a | Throw e => Throw e end.

(** [try { body } catch (error) { handler }] *)
Definition try_catch {A} (body : Exc A) (handler : JsError → A) : A :=
  match body with
  | Ok a => a
  | Throw e => handler e
  end.

(** ** JavaScript [Set] of values: insertion-ordered, no duplicates *)

Definition set_has (x : Value) (s : list Value) : bool := bool_decide (x ∈ s).

Definition set_add (x : Value) (s : list Value) : list Value :=
  if set_has x s then s else s ++ [x].

Definition set_delete (x : Value) (s : list Value) : list Value :=
  filter (λ y, y ≠ x) s.

Definition set_size (s : list Value) : nat := length s.

(** ** Documents of the store *)

Module MessageDocument.
Record t := mk {
  _id : string;            (* ObjectId, by its hexadecimal text *)
  message_id : Value;
  chat_id : Value;
  date : DateVal;
  from_user : Value;
  text : Value;
  caption : Value;
  logged_at : DateVal;
  was_edited : Value
}.
End MessageDocument.

Module ActivatedChatDocument.
Record t := mk {
  _id : string;
  chat_id : Value;
  chat_title : Value;
  chat_type : Value;
  activated_at : DateVal
}.
End ActivatedChatDocument.

(** A notification of a change stream. *)
Inductive OperationType := OpInsert | OpUpdate | OpReplace | OpDelete | OpOther.

Record ChangeStreamDocument (D : Type) := mkChange {
  operationType : OperationType;
  documentKey : string;              (* documentKey._id.toString() *)
  fullDocument : option D
}.
Arguments mkChange {D} _ _ _.
Arguments operationType {D} _.
Arguments documentKey {D} _.
Arguments fullDocument {D} _.

#[global] Instance OperationType_eq_dec : EqDecision OperationType.
Proof. solve_decision. Defined.

#[global] Instance ActivatedChatDocument_eq_dec : EqDecision ActivatedChatDocument.t.
Proof. solve_decision. Defined.

#[global] Instance ChangeStreamDocument_eq_dec {D} `{EqDecision D} :
  EqDecision (ChangeStreamDocument D).
Proof. solve_decision. Defined.

(** * Part I: the WebSocket server ([startServer]) *)

Inductive ReadyState := CONNECTING | OPEN | CLOSING | CLOSED.

#[global] Instance ReadyState_eq_dec : EqDecision ReadyState.
Proof. solve_decision. Defined.

Record WebSocket := mkWebSocket {
  sock : nat;                 (* identity of the connection *)
  readyState : ReadyState
}.

Record ClientInfo := mkClientInfo {
  ws : WebSocket;
  subscribedChats : list Value
}.

(** The payload of an outbound frame, by the object literal that builds it. *)
Inductive Payload :=
| MessagePayload (fullDocument : option MessageDocument.t)
    (* { ...change.fullDocument, _id: change.fullDocument?._id?.toString() } *)
| DeletePayload (id : string) (chat_id : Value)
    (* { id: change.documentKey._id.toString(), chat_id: undefined } *)
| GroupPayload (fullDocument : ActivatedChatDocument.t) (message_count : nat).

Record WsMessage := mkWsMessage {
  messageType : string;
  payload : Payload
}.

(** [(payload as { chat_id?: number }).chat_id] *)
Definition payload_chat_id (p : Payload) : Value :=
  match p with
  | MessagePayload (Some d) => MessageDocument.chat_id d
  | MessagePayload None => VUndefined
  | DeletePayload _ c => c
  | GroupPayload g _ => ActivatedChatDocument.chat_id g
  end.

(** [JSON.stringify] of a [Date] is its ISO text, [null] when invalid. *)
Definition date_json (d : DateVal) : Value :=
  match d with
  | DateObj (Some s) => VStr s
  | DateObj None => VNull
  | NotDate v => v
  end.

(** The properties of the payload as [JSON.stringify] writes them: a
    property whose value is [undefined] is left out. *)
Definition payload_json (p : Payload) : list (string * Value) :=
  filter (λ kv, kv.2 ≠ VUndefined)
    match p with
    | MessagePayload (Some d) =>
        [("_id", VStr (MessageDocument._id d));
         ("message_id", MessageDocument.message_id d);
         ("chat_id", MessageDocument.chat_id d);
         ("date", date_json (MessageDocument.date d));
         ("from_user", MessageDocument.from_user d);
         ("text", MessageDocument.text d);
         ("caption", MessageDocument.caption d);
         ("logged_at", date_json (MessageDocument.logged_at d));
         ("was_edited", MessageDocument.was_edited d)]
    | MessagePayload None => [("_id", VUndefined)]
    | DeletePayload i c => [("id", VStr i); ("chat_id", c)]
    | GroupPayload g n =>
        [("_id", VStr (ActivatedChatDocument._id g));
         ("chat_id", ActivatedChatDocument.chat_id g);
         ("chat_title", ActivatedChatDocument.chat_title g);
         ("chat_type", ActivatedChatDocument.chat_type g);
         ("activated_at", date_json (ActivatedChatDocument.activated_at g));
         ("message_count", VNum (Z.of_nat n))]
    end.

(** The state of the server: the registry [clients] (a [Set] of
    [ClientInfo] objects, in insertion order); to observe the effects of
    [ws.send], the frames handed to each socket so far; and the calls of
    the [activated_chats] change handler that are suspended at
    [await countDocuments], each with the notification it was called
    with. *)
Record Hub := mkHub {
  clients : list ClientInfo;
  sent : list (nat * WsMessage);
  pending : list (ChangeStreamDocument ActivatedChatDocument.t)
}.

Definition hub_init : Hub := mkHub [] [] [].

(** *** Inbound control frames *)

(** What [JSON.parse] returns for the text of a frame: [null], or a value
    whose properties [type] and [chatId] read as given ([VUndefined] when
    the property is absent). *)
Inductive Message :=
| MNull
| MValue (type chatId : Value).

(** [data] is [None] when the text of the frame is not JSON. *)
Definition JSON_parse (data : option Message) : Exc Message :=
  match data with
  | Some m => Ok m
  | None => Throw SyntaxError
  end.

Definition message_type (m : Message) : Exc Value :=
  match m with
  | MNull => Throw TypeError
  | MValue t _ => Ok t
  end.

Definition message_chatId (m : Message) : Exc Value :=
  match m with
  | MNull => Throw TypeError
  | MValue _ c => Ok c
  end.

(** The body of [ws.on('message', ...)] on the subscription set of the
    session that received the frame. *)
Definition on_message (data : option Message) (subscribedChats : list Value)
  : list Value :=
  try_catch
    (message ← JSON_parse data;
     type ← message_type message;
     chatId ← message_chatId message;
     if bool_decide (type = VStr "subscribe") && truthy chatId then
       Ok (set_add chatId subscribedChats)
     else if bool_decide (type = VStr "unsubscribe") && truthy chatId then
       Ok (set_delete chatId subscribedChats)
     else Ok subscribedChats)
    (λ _, subscribedChats).

(** The handler mutates the [clientInfo] object of its own connection. *)
Definition update_client (s : nat) (f : ClientInfo → ClientInfo)
    (cs : list ClientInfo) : list ClientInfo :=
  (λ c, if decide (sock (ws c) = s) then f c else c) <$> cs.

Definition ws_on_message (s : nat) (data : option Message) (h : Hub) : Hub :=
  mkHub
    (update_client s
       (λ c, mkClientInfo (ws c) (on_message data (subscribedChats c)))
       (clients h))
    (sent h) (pending h).

(** [wss.on('connection', ...)]: a fresh [clientInfo] is added. *)
Definition wss_on_connection (s : nat) (h : Hub) : Hub :=
  mkHub (clients h ++ [mkClientInfo (mkWebSocket s OPEN) []]) (sent h) (pending h).

(** [clients.delete(clientInfo)] *)
Definition clients_delete (s : nat) (cs : list ClientInfo) : list ClientInfo :=
  filter (λ c, sock (ws c) ≠ s) cs.

Definition ws_on_close (s : nat) (h : Hub) : Hub :=
  mkHub (clients_delete s (clients h)) (sent h) (pending h).

Definition ws_on_error (s : nat) (h : Hub) : Hub :=
  mkHub (clients_delete s (clients h)) (sent h) (pending h).

(** The socket library moves the [readyState] of a connection. *)
Definition set_readyState (s : nat) (st : ReadyState) (h : Hub) : Hub :=
  mkHub
    (update_client s
       (λ c, mkClientInfo (mkWebSocket (sock (ws c)) st) (subscribedChats c))
       (clients h))
    (sent h) (pending h).

(** *** Broadcast *)

(** [client.ws.send(wsMessage)]: no completion callback is passed and no
    result is read; the frame is handed to the socket. *)
Definition ws_send (c : ClientInfo) (m : WsMessage) : list (nat * WsMessage) :=
  [(sock (ws c), m)].

(** The body of [clients.forEach] in the [messages] change handler. *)
Definition message_send_to (wsMessage : WsMessage) (client : ClientInfo)
  : list (nat * WsMessage) :=
  if decide (readyState (ws client) = OPEN) then
    let chatId := payload_chat_id (payload wsMessage) in
    if (set_size (subscribedChats client) =? 0)
       || (truthy chatId && set_has chatId (subscribedChats client))
    then ws_send client wsMessage
    else []
  else [].

(** The [switch] of the [messages] change handler; [None] is the
    [default: return]. *)
Definition message_frame (change : ChangeStreamDocument MessageDocument.t)
  : option WsMessage :=
  match operationType change with
  | OpInsert =>
      Some (mkWsMessage "new_message" (MessagePayload (fullDocument change)))
  | OpDelete =>
      Some (mkWsMessage "delete_message"
              (DeletePayload (documentKey change) VUndefined))
  | OpUpdate =>
      Some (mkWsMessage "update_message" (MessagePayload (fullDocument change)))
  | _ => None
  end.

Definition message_broadcast (change : ChangeStreamDocument MessageDocument.t)
    (cs : list ClientInfo) : list (nat * WsMessage) :=
  match message_frame change with
  | Some wsMessage => cs ≫= message_send_to wsMessage
  | None => []
  end.

(** The body of [clients.forEach] in the [activated_chats] change handler. *)
Definition group_send_to (wsMessage : WsMessage) (client : ClientInfo)
  : list (nat * WsMessage) :=
  if decide (readyState (ws client) = OPEN) then ws_send client wsMessage
  else [].

(** The frame the [activated_chats] handler builds after its
    [await messagesCollection.countDocuments(...)]. [messageCount] is how
    the [await] settled: with the count, or with a rejection, which the
    handler does not catch, so that it ends there and builds no frame. *)
Definition group_frame (change : ChangeStreamDocument ActivatedChatDocument.t)
    (messageCount : Exc nat) : option WsMessage :=
  match operationType change, fullDocument change, messageCount with
  | OpInsert, Some d, Ok n => Some (mkWsMessage "new_group" (GroupPayload d n))
  | _, _, _ => None
  end.

(** What the handler does once the [await] has settled: it broadcasts on
    the registry [cs] of that moment. *)
Definition group_broadcast (change : ChangeStreamDocument ActivatedChatDocument.t)
    (messageCount : Exc nat) (cs : list ClientInfo) : list (nat * WsMessage) :=
  match group_frame change messageCount with
  | Some wsMessage => cs ≫= group_send_to wsMessage
  | None => []
  end.

(** *** The server as a transition system *)

(** A moment at which a change handler runs its broadcast: a notification
    of [messages] (its handler is synchronous), or a call of the
    [activated_chats] handler resuming when its [await countDocuments]
    settles with [messageCount]. *)
Inductive ChangeEvent :=
| MessageChange (change : ChangeStreamDocument MessageDocument.t)
| ActivatedChatChange (change : ChangeStreamDocument ActivatedChatDocument.t)
    (messageCount : Exc nat).

(** What the process reacts to. [ActivatedChatNotification] is the
    [change] event of [activated_chats]: its handler runs up to the
    [await]; [Change (ActivatedChatChange change messageCount)] is that
    call resuming later. *)
Inductive HubEvent :=
| Connection (s : nat)
| Inbound (s : nat) (data : option Message)
| Close (s : nat)
| Error (s : nat)
| Transport (s : nat) (st : ReadyState)
| Change (ev : ChangeEvent)
| ActivatedChatNotification (change : ChangeStreamDocument ActivatedChatDocument.t).

(** The frame of a change event, when one is dispatched. *)
Definition frame_of (ev : ChangeEvent) : option WsMessage :=
  match ev with
  | MessageChange change => message_frame change
  | ActivatedChatChange change n => group_frame change n
  end.

(** The frames a change event hands to the sockets, in [forEach] order. *)
Definition dispatch (ev : ChangeEvent) (cs : list ClientInfo)
  : list (nat * WsMessage) :=
  match ev with
  | MessageChange change => message_broadcast change cs
  | ActivatedChatChange change n => group_broadcast change n cs
  end.

(** The first occurrence of a suspended call is taken off the list. *)
Fixpoint remove_pending (change : ChangeStreamDocument ActivatedChatDocument.t)
    (l : list (ChangeStreamDocument ActivatedChatDocument.t))
  : list (ChangeStreamDocument ActivatedChatDocument.t) :=
  match l with
  | [] => []
  | x :: l' => if decide (x = change) then l' else x :: remove_pending change l'
  end.

(** The [activated_chats] handler from its call to the [await]: past the
    guard [operationType === 'insert' && fullDocument] the call is
    suspended on [countDocuments]; nothing is sent yet. *)
Definition activatedChats_on_change
    (change : ChangeStreamDocument ActivatedChatDocument.t) (h : Hub) : Hub :=
  match operationType change, fullDocument change with
  | OpInsert, Some _ => mkHub (clients h) (sent h) (pending h ++ [change])
  | _, _ => h
  end.

(** A broadcast runs on the registry as it is when the broadcast runs: at
    the notification for [messages], at the resumption of the suspended
    call for [activated_chats] (the call is then over). *)
Definition on_change_event (ev : ChangeEvent) (h : Hub) : Hub :=
  mkHub (clients h) (sent h ++ dispatch ev (clients h))
    match ev with
    | MessageChange _ => pending h
    | ActivatedChatChange change _ => remove_pending change (pending h)
    end.

Definition hub_step (h : Hub) (e : HubEvent) : Hub :=
  match e with
  | Connection s => wss_on_connection s h
  | Inbound s data => ws_on_message s data h
  | Close s => ws_on_close s h
  | Error s => ws_on_error s h
  | Transport s st => set_readyState s st h
  | Change ev => on_change_event ev h
  | ActivatedChatNotification change => activatedChats_on_change change h
  end.

Definition hub_run (es : list HubEvent) : Hub := foldl hub_step hub_init es.

(** A connection event brings a socket that is not yet in the registry,
    and only a call that is suspended can resume. *)
Definition enabled (h : Hub) (e : HubEvent) : Prop :=
  match e with
  | Connection s => s ∉ (λ c, sock (ws c)) <$> clients h
  | Change (ActivatedChatChange change _) => change ∈ pending h
  | _ => True
  end.

Inductive reachable : Hub → Prop :=
| reachable_init : reachable hub_init
| reachable_step h e : reachable h → enabled h e → reachable (hub_step h e).

(** The notions the routing rule of the specification is stated with. *)

(** Only announcements of new channels are global. *)
Definition is_global (ev : ChangeEvent) : bool :=
  match ev with
  | MessageChange _ => false
  | ActivatedChatChange _ _ => true
  end.

(** The channel of a dispatched event: the [chat_id] of its payload. *)
Definition channel_of (m : WsMessage) : Value := payload_chat_id (payload m).

(** Session [c] is handed frame [m] by the dispatch of [ev]. *)
Definition receives (ev : ChangeEvent) (cs : list ClientInfo) (c : ClientInfo)
    (m : WsMessage) : Prop :=
  (sock (ws c), m) ∈ dispatch ev cs.

(** * Part II: the index synchronizer ([syncMessages], [watchAndSync]) *)

Module IndexDocument.
Record t := mk {
  id : string;
  _id : string;
  message_id : Value;
  chat_id : Value;
  date : Value;
  from_user : Value;
  text : Value;
  caption : Value;
  logged_at : Value;
  was_edited : Value
}.
End IndexDocument.

(** [d instanceof Date ? d.toISOString() : d] *)
Definition iso_or_self (d : DateVal) : Exc Value :=
  match d with
  | DateObj (Some s) => Ok (VStr s)
  | DateObj None => Throw RangeError
  | NotDate v => Ok v
  end.

(** The object literal that turns a message record into its index
    document; [syncMessages] and [watchAndSync] write the same literal. *)
Definition to_index_document (msg : MessageDocument.t) : Exc IndexDocument.t :=
  date ← iso_or_self (MessageDocument.date msg);
  logged_at ← iso_or_self (MessageDocument.logged_at msg);
  Ok {| IndexDocument.id := MessageDocument._id msg;
        IndexDocument._id := MessageDocument._id msg;
        IndexDocument.message_id := MessageDocument.message_id msg;
        IndexDocument.chat_id := MessageDocument.chat_id msg;
        IndexDocument.date := date;
        IndexDocument.from_user := MessageDocument.from_user msg;
        IndexDocument.text := MessageDocument.text msg;
        IndexDocument.caption := MessageDocument.caption msg;
        IndexDocument.logged_at := logged_at;
        IndexDocument.was_edited :=
          if truthy (MessageDocument.was_edited msg)
          then MessageDocument.was_edited msg
          else VBool false |}.

(** *** The index store

    The search index is an external collaborator, known by its contract:
    documents keyed by the primary key [id], [addDocuments] adds or
    replaces by key (documents of one call in order), [deleteDocument]
    removes by key and accepts a key that is absent. A request either
    reaches the store ([up = true]) or is rejected. *)

Definition addDocuments (up : bool) (documents : list IndexDocument.t)
    (index : gmap string IndexDocument.t) : Exc (gmap string IndexDocument.t) :=
  if up then Ok (foldl (λ m d, <[IndexDocument.id d := d]> m) index documents)
  else Throw IndexStoreError.

Definition deleteDocument (up : bool) (key : string)
    (index : gmap string IndexDocument.t) : Exc (gmap string IndexDocument.t) :=
  if up then Ok (delete key index) else Throw IndexStoreError.

(** *** Incremental mode *)

Inductive LogLine :=
| LogIndexed (op : OperationType) (id : string)   (* console.log `Indexed: ...` *)
| LogDeleted (id : string)                        (* console.log `Deleted from index: ...` *)
| LogFailed (e : JsError).                        (* console.error 'Failed to sync change:' *)

Record SyncState := mkSyncState {
  index : gmap string IndexDocument.t;
  log : list LogLine
}.

(** The [try] block of the change handler. *)
Definition apply_change (change : ChangeStreamDocument MessageDocument.t)
    (up : bool) (index : gmap string IndexDocument.t)
  : Exc (gmap string IndexDocument.t * list LogLine) :=
  match operationType change with
  | OpInsert | OpUpdate =>
      match fullDocument change with
      | Some fd =>
          doc ← to_index_document fd;
          index' ← addDocuments up [doc] index;
          Ok (index', [LogIndexed (operationType change) (IndexDocument.id doc)])
      | None => Ok (index, [])
      end
  | OpDelete =>
      let deletedId := documentKey change in
      index' ← deleteDocument up deletedId index;
      Ok (index', [LogDeleted deletedId])
  | _ => Ok (index, [])
  end.

(** [changeStream.on('change', ...)]; [up] tells whether the request of
    this event reaches the index store. *)
Definition watch_on_change (st : SyncState)
    (ev : ChangeStreamDocument MessageDocument.t * bool) : SyncState :=
  let r := try_catch (apply_change ev.1 ev.2 (index st))
             (λ error, (index st, [LogFailed error])) in
  mkSyncState r.1 (log st ++ r.2).

(** The change stream calls the handler once per notification, in feed
    order. *)
Definition watchAndSync (st : SyncState)
    (feed : list (ChangeStreamDocument MessageDocument.t * bool)) : SyncState :=
  foldl watch_on_change st feed.

(** *** The store, seen at one identity

    The store is an external collaborator, known by its change-feed
    contract: an insert of a new record, an update of an existing record
    and a delete of an existing record commit and are notified, with the
    record as it is after the operation; any other operation changes
    nothing and is not notified. *)

Inductive StoreOp :=
| SInsert (d : MessageDocument.t)
| SUpdate (d : MessageDocument.t)      (* the record after the update *)
| SDelete.

Definition store_step (k : string) (s : option MessageDocument.t) (op : StoreOp)
  : option MessageDocument.t * list (ChangeStreamDocument MessageDocument.t) :=
  match op, s with
  | SInsert d, None =>
      if decide (MessageDocument._id d = k)
      then (Some d, [mkChange OpInsert k (Some d)]) else (s, [])
  | SUpdate d, Some _ =>
      if decide (MessageDocument._id d = k)
      then (Some d, [mkChange OpUpdate k (Some d)]) else (s, [])
  | SDelete, Some _ => (None, [mkChange OpDelete k None])
  | _, _ => (s, [])
  end.

Fixpoint store_run (k : string) (s : option MessageDocument.t) (ops : list StoreOp)
  : option MessageDocument.t * list (ChangeStreamDocument MessageDocument.t) :=
  match ops with
  | [] => (s, [])
  | op :: ops' =>
      let r := store_step k s op in
      let r' := store_run k r.1 ops' in
      (r'.1, r.2 ++ r'.2)
  end.

(** A record whose transform does not raise. *)
Definition indexable (d : MessageDocument.t) : Prop :=
  ∃ doc, to_index_document d = Ok doc.

(** The index document of a store state: its transform, when there is a
    record. *)
Definition index_view (s : option MessageDocument.t) : option IndexDocument.t :=
  s ≫= λ d, match to_index_document d with
            | Ok doc => Some doc
            | Throw _ => None
            end.

Definition op_indexable (op : StoreOp) : Prop :=
  match op with
  | SInsert d | SUpdate d => indexable d
  | SDelete => True
  end.

(** *** Backfill *)

Record SyncResult := mkSyncResult {
  processed : nat;
  batches : list (list IndexDocument.t);   (* the calls of addDocuments *)
  synced : gmap string IndexDocument.t
}.

(** [.limit(n)] of the store's cursor: [0] means no limit. *)
Definition cursor_limit {A} (n : nat) (l : list A) : list A :=
  if n =? 0 then l else take n l.

(** [find({}).sort({ date: -1 }).skip(skip).limit(BATCH_SIZE).toArray()],
    where [store] lists the collection in the order of the sort. *)
Definition find_page (store : list MessageDocument.t) (skip BATCH_SIZE : nat)
  : list MessageDocument.t :=
  cursor_limit BATCH_SIZE (drop skip store).

(** The [while (skip < totalCount)] loop; [None] when [fuel] iterations
    did not reach its exit. [up n] tells whether the request of batch
    number [n] reaches the index store. *)
Fixpoint sync_loop (fuel : nat) (store : list MessageDocument.t)
    (BATCH_SIZE totalCount : nat) (up : nat → bool)
    (skip : nat) (r : SyncResult) : option (Exc SyncResult) :=
  match fuel with
  | 0 => None
  | S fuel' =>
      if decide (skip < totalCount) then
        let messages := find_page store skip BATCH_SIZE in
        if length messages =? 0 then Some (Ok r)
        else
          match
            (documents ← mapM to_index_document messages;
             index' ← addDocuments (up (length (batches r))) documents (synced r);
             Ok (documents, index'))
          with
          | Ok (documents, index') =>
              sync_loop fuel' store BATCH_SIZE totalCount up
                (skip + BATCH_SIZE)
                (mkSyncResult (processed r + length messages)
                   (batches r ++ [documents]) index')
          | Throw e => Some (Throw e)
          end
      else Some (Ok r)
  end.

Definition syncMessages (fuel : nat) (store : list MessageDocument.t)
    (BATCH_SIZE : nat) (up : nat → bool) (index : gmap string IndexDocument.t)
  : option (Exc SyncResult) :=
  let totalCount := length store in
  if totalCount =? 0 then Some (Ok (mkSyncResult 0 [] index))
  else sync_loop fuel store BATCH_SIZE totalCount up 0 (mkSyncResult 0 [] index).

(** What a control frame asks for, read off the frame alone. *)
Inductive Control :=
| Subscribe (chatId : Value)
| Unsubscribe (chatId : Value)
| Ignored.

Definition control_of (data : option Message) : Control :=
  match data with
  | Some (MValue (VStr "subscribe") c) => if truthy c then Subscribe c else Ignored
  | Some (MValue (VStr "unsubscribe") c) => if truthy c then Unsubscribe c else Ignored
  | _ => Ignored
  end.

(** A control frame that asks for nothing: its text is not JSON, or it is
    [null], or its [type] is neither ["subscribe"] nor ["unsubscribe"], or
    its [chatId] is missing or falsy. *)
Definition ill_formed (data : option Message) : Prop :=
  data = None ∨ data = Some MNull ∨
  ∃ t c, data = Some (MValue t c) ∧
         ((t ≠ VStr "subscribe" ∧ t ≠ VStr "unsubscribe") ∨ truthy c = false).

(** The sockets of the registry, in registration order. *)
Definition socks (cs : list ClientInfo) : list nat := (λ c, sock (ws c)) <$> cs.

(** The registry holds one [clientInfo] per connection, and a subscription
    set holds truthy values only, each once. *)
Definition hub_inv (h : Hub) : Prop :=
  NoDup (socks (clients h)) ∧
  Forall (λ c, NoDup (subscribedChats c) ∧
               Forall (λ v, truthy v = true) (subscribedChats c)) (clients h).

(** Sample data: message [m1] of chat 42, the announcement of chat 7, and
    the control frames of a viewer. *)
Definition message_m1 : MessageDocument.t :=
  MessageDocument.mk "m1" (VNum 1) (VNum 42) (DateObj (Some "2024-01-01T00:00:00.000Z"))
    (VObj 0) (VStr "hi") VUndefined (DateObj (Some "2024-01-01T00:00:01.000Z")) VUndefined.


Definition subscribe_frame (chatId : Z) : option Message :=
  Some (MValue (VStr "subscribe") (VNum chatId)).

Definition unsubscribe_frame (chatId : Z) : option Message :=
  Some (MValue (VStr "unsubscribe") (VNum chatId)).

(** The value of key [k] after an [addDocuments]: the last document of the
    call with that key, else what the index had. *)
Definition last_with_key (k : string) (o : option IndexDocument.t)
    (docs : list IndexDocument.t) : option IndexDocument.t :=
  foldl (λ o d, if decide (IndexDocument.id d = k) then Some d else o) o docs.

(** [docs] are the transforms of the records of [store], one per record,
    in order. *)
Definition transforms (store : list MessageDocument.t)
    (docs : list IndexDocument.t) : Prop :=
  Forall2 (λ m d, to_index_document m = Ok d) store docs.

(** A store of [n] records with the identities [0 .. n-1]. *)
Definition sample_store (n : nat) : list MessageDocument.t :=
  (λ i, MessageDocument.mk (pretty i) (VNum (Z.of_nat i)) (VNum 42)
          (DateObj (Some "2024-01-01T00:00:00.000Z")) (VObj 0) (VStr "hi")
          VUndefined (NotDate VUndefined) VUndefined) <$> seq 0 n.

(** * Part III: the dashboard client ([WebSocketProvider] and the pages) *)

(** An object as [JSON.parse] returns it: its properties in order, each
    key once; a property that is absent reads [undefined]. *)
Fixpoint prop (k : string) (o : list (string * Value)) : Value :=
  match o with
  | [] => VUndefined
  | (k', v) :: o' => if decide (k' = k) then v else prop k o'
  end.

Module WebSocketMessage.
Record t := mk {
  type : string;
  payload : list (string * Value)
}.
End WebSocketMessage.

(** What the client parses from a frame of the server:
    [JSON.parse] of [JSON.stringify({ type, payload })]. *)
Definition received (m : WsMessage) : WebSocketMessage.t :=
  WebSocketMessage.mk (messageType m) (payload_json (payload m)).

(** [subscribersRef]: a [Map] from chat id to the [Set] of callbacks of
    that chat; a callback is known by its identity. *)
Definition callbacks_add (callback : nat) (callbacks : list nat) : list nat :=
  if bool_decide (callback ∈ callbacks) then callbacks else callbacks ++ [callback].

Definition callbacks_delete (callback : nat) (callbacks : list nat) : list nat :=
  filter (λ f, f ≠ callback) callbacks.

(** [subscribe(chatId, callback)] of the provider. *)
Definition subscribe (chatId : Z) (callback : nat) (subscribers : gmap Z (list nat))
  : gmap Z (list nat) :=
  let subscribers' :=
    if bool_decide (is_Some (subscribers !! chatId)) then subscribers
    else <[chatId := []]> subscribers in
  match subscribers' !! chatId with
  | Some callbacks => <[chatId := callbacks_add callback callbacks]> subscribers'
  | None => subscribers'
  end.

(** The function [subscribe] returns, called. *)
Definition unsubscribe (chatId : Z) (callback : nat) (subscribers : gmap Z (list nat))
  : gmap Z (list nat) :=
  match subscribers !! chatId with
  | Some callbacks =>
      let callbacks' := callbacks_delete callback callbacks in
      if length callbacks' =? 0 then delete chatId subscribers
      else <[chatId := callbacks']> subscribers
  | None => subscribers
  end.

(** [subscribersRef.current.get(chatId)] for a value read from a payload:
    the keys of the map are numbers. *)
Definition get_callbacks (chatId : Value) (subscribers : gmap Z (list nat)) : list nat :=
  match chatId with
  | VNum z => default [] (subscribers !! z)
  | _ => []
  end.

(** [ws.onmessage] of the provider, for a frame that parsed to [message]:
    the callbacks it calls with [message], in order (a callback is a state
    update of a page and does not raise; the [lastMessage] state, which is
    set to [message] first, is left out). *)
Definition provider_on_message (subscribers : gmap Z (list nat))
    (message : WebSocketMessage.t) : list nat :=
  if decide (WebSocketMessage.type message = "new_group") then
    default [] (subscribers !! (-1)%Z)
  else
    let chatId := prop "chat_id" (WebSocketMessage.payload message) in
    (if decide (chatId ≠ VUndefined) then get_callbacks chatId subscribers else [])
    ++ default [] (subscribers !! (-1)%Z).

(** No chat of the map is left with an empty set, and a set holds a
    callback once. *)
Definition subscribers_inv (subscribers : gmap Z (list nat)) : Prop :=
  ∀ chatId callbacks, subscribers !! chatId = Some callbacks →
    callbacks ≠ [] ∧ NoDup callbacks.

(** The callback of the dashboard page ([subscribe(-1, ...)]) as a
    function on its list of groups. *)
Definition dashboard_on_message (message : WebSocketMessage.t)
    (prevGroups : list (list (string * Value))) : list (list (string * Value)) :=
  if decide (WebSocketMessage.type message = "new_group") then
    let newGroup := WebSocketMessage.payload message in
    if bool_decide (Exists (λ g, prop "chat_id" g = prop "chat_id" newGroup) prevGroups)
    then prevGroups
    else newGroup :: prevGroups
  else prevGroups.

(** The callback of the messages page of a chat as a function on its
    rows and its count. *)
Module MessagesPage.
Record State := mk {
  messages : list (list (string * Value));
  total : Z
}.
End MessagesPage.

Definition page_on_message (wsMessage : WebSocketMessage.t)
    (st : MessagesPage.State) : MessagesPage.State :=
  let payload := WebSocketMessage.payload wsMessage in
  if decide (WebSocketMessage.type wsMessage = "new_message") then
    MessagesPage.mk (payload :: MessagesPage.messages st)
      (MessagesPage.total st + 1)
  else if decide (WebSocketMessage.type wsMessage = "delete_message") then
    let id := prop "id" payload in
    MessagesPage.mk
      (filter (λ m, prop "_id" m ≠ id) (MessagesPage.messages st))
      (MessagesPage.total st - 1)
  else if decide (WebSocketMessage.type wsMessage = "update_message") then
    let updatedMessage := payload in
    MessagesPage.mk
      ((λ m, if decide (prop "_id" m = prop "_id" updatedMessage)
             then updatedMessage else m) <$> MessagesPage.messages st)
      (MessagesPage.total st)
  else st.

(** The insert notification of a record, as the feed of the store gives it. *)
Definition insert_notification (m : MessageDocument.t)
  : ChangeStreamDocument MessageDocument.t :=
  mkChange OpInsert (MessageDocument._id m) (Some m).

(** The channel of a change event, when the notification carries it: the
    [chat_id] of the document of an insert or update of [messages], or of
    the record of an announced chat. A delete notification carries no
    document, so no channel. *)
Definition event_channel (ev : ChangeEvent) : option Value :=
  match ev with
  | MessageChange change =>
      match operationType change with
      | OpInsert | OpUpdate => MessageDocument.chat_id <$> fullDocument change
      | _ => None
      end
  | ActivatedChatChange change _ =>
      ActivatedChatDocument.chat_id <$> fullDocument change
  end.

(** What the specification asks of the incremental mode, said without the
    handler: whether a notification fails (its transform raises, or the
    index store rejects its request), and what a notification that does
    not fail does to the index. *)
Definition failure_of (ev : ChangeStreamDocument MessageDocument.t * bool)
  : option JsError :=
  match operationType ev.1 with
  | OpInsert | OpUpdate =>
      match fullDocument ev.1 with
      | Some fd =>
          match to_index_document fd with
          | Throw e => Some e
          | Ok _ => if ev.2 then None else Some IndexStoreError
          end
      | None => None
      end
  | OpDelete => if ev.2 then None else Some IndexStoreError
  | _ => None
  end.

Definition index_effect (change : ChangeStreamDocument MessageDocument.t)
    (idx : gmap string IndexDocument.t) : gmap string IndexDocument.t :=
  match operationType change with
  | OpInsert | OpUpdate =>
      match fullDocument change with
      | Some fd =>
          match to_index_document fd with
          | Ok doc => <[MessageDocument._id fd := doc]> idx
          | Throw _ => idx
          end
      | None => idx
      end
  | OpDelete => delete (documentKey change) idx
  | _ => idx
  end.

(** The index after a feed when every failing notification is skipped and
    every other one is applied, in feed order. *)
Definition skip_failures (idx : gmap string IndexDocument.t)
    (feed : list (ChangeStreamDocument MessageDocument.t * bool))
  : gmap string IndexDocument.t :=
  foldl (λ idx ev, match failure_of ev with
                   | Some _ => idx
                   | None => index_effect ev.1 idx
                   end) idx feed.

(** * Proofs, part I: the WebSocket server *)

Section SetLemmas.
Implicit Types (x v : Value) (s : list Value).

Lemma set_has_true x s : set_has x s = true ↔ x ∈ s.
Proof. unfold set_has. apply bool_decide_eq_true. Qed.

Lemma elem_of_set_add x v s : x ∈ set_add v s ↔ x = v ∨ x ∈ s.
Proof.
  unfold set_add. destruct (set_has v s) eqn:E.
  - apply set_has_true in E. split; [auto | intros [-> | ?]; done].
  - rewrite elem_of_app, list_elem_of_singleton. tauto.
Qed.

Lemma elem_of_set_delete x v s : x ∈ set_delete v s ↔ x ∈ s ∧ x ≠ v.
Proof. unfold set_delete. rewrite list_elem_of_filter. tauto. Qed.

Lemma set_add_NoDup v s : NoDup s → NoDup (set_add v s).
Proof.
  intros Hs. unfold set_add. destruct (set_has v s) eqn:E; [done |].
  apply NoDup_app. split_and!; [done | | apply NoDup_singleton].
  intros y Hy Hv. apply list_elem_of_singleton in Hv as ->.
  apply set_has_true in Hy. congruence.
Qed.

Lemma set_delete_NoDup v s : NoDup s → NoDup (set_delete v s).
Proof. intros Hs. eapply sublist_NoDup; [done | apply sublist_filter]. Qed.

End SetLemmas.

Lemma on_message_control data subs :
  on_message data subs =
    match control_of data with
    | Subscribe c => set_add c subs
    | Unsubscribe c => set_delete c subs
    | Ignored => subs
    end.
Proof.
  unfold on_message, control_of.
  destruct data as [[|t c]|]; simpl; try done.
  destruct (decide (t = VStr "subscribe")) as [-> | Hs].
  { rewrite bool_decide_eq_true_2 by done. simpl. by destruct (truthy c). }
  rewrite (bool_decide_eq_false_2 _ Hs). simpl.
  destruct (decide (t = VStr "unsubscribe")) as [-> | Hu].
  { rewrite bool_decide_eq_true_2 by done. simpl. by destruct (truthy c). }
  rewrite (bool_decide_eq_false_2 _ Hu). simpl.
  destruct t as [| | | | s0 |]; try done.
  repeat (destruct s0 as [| [[] [] [] [] [] [] [] []] s0]; try done).
Qed.

Section HubInvariant.

Lemma socks_update_client s f cs :
  (∀ c, sock (ws (f c)) = sock (ws c)) → socks (update_client s f cs) = socks cs.
Proof.
  intros Hf. unfold socks, update_client. rewrite <- list_fmap_compose.
  apply list_fmap_ext. intros i c _. simpl. case_decide; [apply Hf | done].
Qed.

Lemma socks_clients_delete s cs :
  socks (clients_delete s cs) `sublist_of` socks cs.
Proof. unfold socks, clients_delete. apply fmap_sublist, sublist_filter. Qed.

Lemma elem_of_socks c cs : c ∈ cs → sock (ws c) ∈ socks cs.
Proof. intros Hc. unfold socks. apply list_elem_of_fmap. eauto. Qed.

Lemma Forall_clients_delete (P : ClientInfo → Prop) s cs :
  Forall P cs → Forall P (clients_delete s cs).
Proof.
  rewrite !Forall_forall. intros HP c Hc.
  apply list_elem_of_filter in Hc as [_ Hc]. by apply HP.
Qed.

(** Two registered sessions on one socket are the same session. *)
Lemma socks_NoDup_inj cs c c' :
  NoDup (socks cs) → c ∈ cs → c' ∈ cs → sock (ws c) = sock (ws c') → c = c'.
Proof.
  induction cs as [| a cs IH]; intros Hnd Hc Hc' Heq.
  { by apply not_elem_of_nil in Hc. }
  unfold socks in Hnd. rewrite fmap_cons in Hnd. apply NoDup_cons in Hnd as [Ha Hnd].
  apply elem_of_cons in Hc as [-> | Hc]; apply elem_of_cons in Hc' as [-> | Hc'].
  - done.
  - exfalso. apply Ha. rewrite Heq. by apply elem_of_socks.
  - exfalso. apply Ha. rewrite <- Heq. by apply elem_of_socks.
  - by apply IH.
Qed.

Lemma on_message_inv data subs :
  NoDup subs ∧ Forall (λ v, truthy v = true) subs →
  NoDup (on_message data subs) ∧ Forall (λ v, truthy v = true) (on_message data subs).
Proof.
  intros [Hnd Ht]. rewrite on_message_control. unfold control_of.
  destruct data as [[| t c] |]; try done.
  destruct t as [| | | | s0 |]; try done.
  assert (∀ b : bool, (if b then Ignored else Ignored) = Ignored) as Hig by (by intros []).
  destruct (decide (s0 = "subscribe")) as [-> | Hs].
  { destruct (truthy c) eqn:Hc; [| done]. split; [by apply set_add_NoDup |].
    apply Forall_forall. intros x Hx. apply elem_of_set_add in Hx as [-> | Hx]; [done |].
    by eapply Forall_forall in Ht. }
  destruct (decide (s0 = "unsubscribe")) as [-> | Hu].
  { destruct (truthy c) eqn:Hc; [| done]. split; [by apply set_delete_NoDup |].
    apply Forall_forall. intros x Hx. apply elem_of_set_delete in Hx as [Hx _].
    by eapply Forall_forall in Ht. }
  assert (control_of (Some (MValue (VStr s0) c)) = Ignored) as Hc.
  { unfold control_of.
    repeat (destruct s0 as [| [[] [] [] [] [] [] [] []] s0]; try done). }
  unfold control_of in Hc. by rewrite Hc.
Qed.

Lemma hub_step_inv h e : hub_inv h → enabled h e → hub_inv (hub_step h e).
Proof.
  intros [Hnd Hsubs] Hen.
  destruct e as [s | s data | s | s | s st | ev | change]; simpl.
  - split; simpl.
    + unfold socks. rewrite fmap_app. simpl. apply NoDup_app. split_and!.
      * done.
      * intros x Hx Hx'. apply list_elem_of_singleton in Hx' as ->. by apply Hen.
      * apply NoDup_singleton.
    + apply Forall_app. split; [done |]. apply Forall_singleton. split; [apply NoDup_nil_2 | done].
  - split; simpl.
    + by rewrite socks_update_client.
    + unfold update_client. apply Forall_fmap. eapply Forall_impl; [exact Hsubs |].
      intros c Hc. simpl. case_decide; [| done]. simpl. by apply on_message_inv.
  - split; simpl.
    + eapply sublist_NoDup; [exact Hnd | apply socks_clients_delete].
    + by apply Forall_clients_delete.
  - split; simpl.
    + eapply sublist_NoDup; [exact Hnd | apply socks_clients_delete].
    + by apply Forall_clients_delete.
  - split; simpl.
    + by rewrite socks_update_client.
    + unfold update_client. apply Forall_fmap. eapply Forall_impl; [exact Hsubs |].
      intros c Hc. simpl. by case_decide.
  - done.
  - unfold activatedChats_on_change.
    by destruct (operationType change), (fullDocument change).
Qed.

Lemma reachable_inv h : reachable h → hub_inv h.
Proof.
  induction 1 as [| h e _ IH Hen].
  - split; simpl; [apply NoDup_nil_2 | done].
  - by apply hub_step_inv.
Qed.

End HubInvariant.

Section Routing.

Lemma elem_of_message_send_to x m c :
  x ∈ message_send_to m c ↔
    x = (sock (ws c), m) ∧ readyState (ws c) = OPEN ∧
    (subscribedChats c = [] ∨
     (truthy (channel_of m) = true ∧ channel_of m ∈ subscribedChats c)).
Proof.
  unfold message_send_to, ws_send, channel_of, set_size.
  destruct (decide (readyState (ws c) = OPEN)) as [Ho | Ho].
  2: { split; [by intros ?%not_elem_of_nil | by intros (_ & ? & _)]. }
  destruct (subscribedChats c) as [| v subs] eqn:Hs; simpl.
  { rewrite list_elem_of_singleton. naive_solver. }
  destruct (truthy (payload_chat_id (payload m))) eqn:Ht; simpl.
  - destruct (set_has _ _) eqn:Hh.
    + apply set_has_true in Hh. rewrite list_elem_of_singleton. naive_solver.
    + split; [by intros ?%not_elem_of_nil |].
      intros (_ & _ & [? | [_ Hin]]); [done |].
      apply set_has_true in Hin. congruence.
  - split; [by intros ?%not_elem_of_nil | naive_solver].
Qed.

Lemma elem_of_group_send_to x m c :
  x ∈ group_send_to m c ↔ x = (sock (ws c), m) ∧ readyState (ws c) = OPEN.
Proof.
  unfold group_send_to, ws_send. case_decide.
  - rewrite list_elem_of_singleton. naive_solver.
  - split; [by intros ?%not_elem_of_nil | naive_solver].
Qed.

(** What [dispatch] hands out, session by session. *)
Lemma elem_of_dispatch ev cs x :
  x ∈ dispatch ev cs ↔
    ∃ m c, frame_of ev = Some m ∧ c ∈ cs ∧ x = (sock (ws c), m) ∧
           readyState (ws c) = OPEN ∧
           (is_global ev = true ∨ subscribedChats c = [] ∨
            (truthy (channel_of m) = true ∧ channel_of m ∈ subscribedChats c)).
Proof.
  destruct ev as [change | change n]; simpl.
  - unfold message_broadcast. destruct (message_frame change) as [m |].
    + rewrite list_elem_of_bind. split.
      * intros (c & Hx & Hc). apply elem_of_message_send_to in Hx.
        exists m, c. naive_solver.
      * intros (m' & c & [= <-] & Hc & Hx & Ho & [? | Hr]); [done |].
        exists c. split; [| done]. apply elem_of_message_send_to. naive_solver.
    + split; [by intros ?%not_elem_of_nil | by intros (? & ? & ? & _)].
  - unfold group_broadcast. destruct (group_frame change n) as [m |].
    + rewrite list_elem_of_bind. split.
      * intros (c & Hx & Hc). apply elem_of_group_send_to in Hx.
        exists m, c. naive_solver.
      * intros (m' & c & [= <-] & Hc & Hx & Ho & _).
        exists c. split; [| done]. apply elem_of_group_send_to. naive_solver.
    + split; [by intros ?%not_elem_of_nil | by intros (? & ? & ? & _)].
Qed.

Lemma reachable_run_2 e1 e2 :
  enabled hub_init e1 → enabled (hub_step hub_init e1) e2 →
  reachable (hub_run [e1; e2]).
Proof. intros H1 H2. by repeat apply reachable_step; [apply reachable_init | ..]. Qed.

(** C1, as the specification states it, fails on the code: a session that
    is still registered while its connection is closing has an empty
    subscription set and is not handed the event. *)
Lemma C1_closing_session_is_skipped :
  let h := hub_run [Connection 1; Transport 1 CLOSING] in
  let ev := MessageChange (mkChange OpInsert "m1" (Some message_m1)) in
  let c := mkClientInfo (mkWebSocket 1 CLOSING) [] in
  let m := mkWsMessage "new_message" (MessagePayload (Some message_m1)) in
  reachable h ∧ frame_of ev = Some m ∧ c ∈ clients h ∧
  ¬ (receives ev (clients h) c m ↔
       subscribedChats c = [] ∨ channel_of m ∈ subscribedChats c ∨ is_global ev = true).
Proof.
  simpl. split_and!.
  - apply reachable_run_2; simpl; [| done]. apply not_elem_of_nil.
  - done.
  - apply list_elem_of_singleton. done.
  - intros [_ Hr]. specialize (Hr (or_introl eq_refl)).
    unfold receives in Hr. vm_compute in Hr. by apply not_elem_of_nil in Hr.
Qed.

(** How the broadcasts route by the [chat_id] of the payload they send. *)
Lemma routing_by_payload h ev m c :
  reachable h → frame_of ev = Some m → c ∈ clients h →
  (receives ev (clients h) c m ↔
     readyState (ws c) = OPEN ∧
     (subscribedChats c = [] ∨ channel_of m ∈ subscribedChats c ∨ is_global ev = true)).
Proof.
  intros Hreach Hm Hc. apply reachable_inv in Hreach as [Hnd Hsubs].
  unfold receives. rewrite elem_of_dispatch. split.
  - intros (m' & c' & Hm' & Hc' & Heq & Ho & Hr).
    injection Heq as Hsock _.
    assert (c = c') as <- by by eapply socks_NoDup_inj.
    split; [done |]. naive_solver.
  - intros (Ho & Hr). exists m, c. split_and!; try done.
    destruct Hr as [? | [Hin | ?]]; [auto | | auto].
    right. right. split; [| done].
    eapply Forall_forall in Hsubs as [_ Ht]; [| exact Hc].
    by eapply Forall_forall in Ht.
Qed.

(** The payload of a frame carries the channel of its event, when the
    event has one. *)
Lemma channel_of_frame ev m channel :
  frame_of ev = Some m → event_channel ev = Some channel → channel_of m = channel.
Proof.
  destruct ev as [change | change r]; simpl; unfold channel_of.
  - unfold message_frame.
    destruct (operationType change), (fullDocument change) as [d |];
      simpl; try done; by intros [= <-] [= <-].
  - unfold group_frame.
    destruct (operationType change), (fullDocument change) as [d |], r;
      simpl; try done; by intros [= <-] [= <-].
Qed.

(** C1 (amended): in every reachable state of the server, for every change
    event that is dispatched and carries its channel (an insert or update
    of a message with its document, or the announcement of a chat) and
    every registered session, the session is handed the event if and only
    if its connection is open and its subscription set is empty, or
    contains the channel identifier of the event, or the event is global.
    Events that carry no document, such as deletes, are left out. *)
Theorem C1_routing_rule_open_sessions h ev m c channel :
  reachable h → frame_of ev = Some m → c ∈ clients h →
  event_channel ev = Some channel →
  (receives ev (clients h) c m ↔
     readyState (ws c) = OPEN ∧
     (subscribedChats c = [] ∨ channel ∈ subscribedChats c ∨ is_global ev = true)).
Proof.
  intros Hreach Hm Hc Hch.
  rewrite <- (channel_of_frame ev m channel Hm Hch).
  by apply routing_by_payload.
Qed.

Lemma C1_routing_rule_open_sessions_witness :
  let h := hub_run [Connection 1; Inbound 1 (subscribe_frame 42)] in
  let ev := MessageChange (mkChange OpInsert "m1" (Some message_m1)) in
  let c := mkClientInfo (mkWebSocket 1 OPEN) [VNum 42%Z] in
  let m := mkWsMessage "new_message" (MessagePayload (Some message_m1)) in
  reachable h ∧ frame_of ev = Some m ∧ c ∈ clients h ∧
  event_channel ev = Some (VNum 42) ∧ receives ev (clients h) c m.
Proof.
  simpl.
  assert (reachable (hub_run [Connection 1; Inbound 1 (subscribe_frame 42)])) as Hr.
  { apply reachable_run_2; simpl; [| done]. apply not_elem_of_nil. }
  assert (mkClientInfo (mkWebSocket 1 OPEN) [VNum 42%Z]
            ∈ clients (hub_run [Connection 1; Inbound 1 (subscribe_frame 42)])) as Hc.
  { apply list_elem_of_singleton. reflexivity. }
  split_and!; [exact Hr | reflexivity | exact Hc | reflexivity |].
  apply (C1_routing_rule_open_sessions _
           (MessageChange (mkChange OpInsert "m1" (Some message_m1))) _ _ (VNum 42)
           Hr eq_refl Hc eq_refl).
  split; [reflexivity |]. right. left. apply list_elem_of_singleton. reflexivity.
Defined.

End Routing.

Section Delivery.

(** A delete notification carries no record: its frame has no channel and
    only sessions without subscriptions are handed it. *)
Lemma delete_frame_only_global cs change c m :
  operationType change = OpDelete →
  receives (MessageChange change) cs c m →
  m = mkWsMessage "delete_message" (DeletePayload (documentKey change) VUndefined) ∧
  "chat_id" ∉ (payload_json (payload m)).*1.
Proof.
  intros Hop Hr. unfold receives in Hr. apply elem_of_dispatch in Hr.
  destruct Hr as (m' & c' & Hm & _ & [= _ ->] & _).
  simpl in Hm. unfold message_frame in Hm. rewrite Hop in Hm. injection Hm as <-.
  split; [done |]. simpl. unfold payload_json. simpl.
  intros [? | ?%not_elem_of_nil]%elem_of_cons; done.
Qed.

(** C2, the code at a failing input: session 1 subscribed to chat 42, the
    original channel of [m1], session 2 has no subscription. The delete of
    [m1] is handed to session 2 only, and its payload on the wire has the
    identity but no [chat_id]. *)
Example C2_delete_skips_channel_subscribers :
  let h := hub_run [Connection 1; Inbound 1 (subscribe_frame 42); Connection 2] in
  let ev := MessageChange (mkChange OpDelete "m1" None) in
  let m := mkWsMessage "delete_message" (DeletePayload "m1" VUndefined) in
  clients h = [mkClientInfo (mkWebSocket 1 OPEN) [VNum 42%Z];
               mkClientInfo (mkWebSocket 2 OPEN) []] ∧
  dispatch ev (clients h) = [(2, m)] ∧
  payload_json (payload m) = [("id", VStr "m1")].
Proof. simpl. split_and!; reflexivity. Qed.






(** Every frame of a dispatch goes to the socket of a registered session,
    in registration order, at most one per session. *)
Lemma dispatch_socks_sublist ev cs : (dispatch ev cs).*1 `sublist_of` socks cs.
Proof.
  assert (∀ (f : ClientInfo → list (nat * WsMessage)),
            (∀ c, f c = [] ∨ ∃ m, f c = [(sock (ws c), m)]) →
            (cs ≫= f).*1 `sublist_of` socks cs) as Hgen.
  { intros f Hf. induction cs as [| c cs IH]; [done |].
    rewrite bind_cons, fmap_app. unfold socks. rewrite fmap_cons.
    destruct (Hf c) as [-> | [m ->]]; simpl.
    - by apply sublist_cons.
    - by apply sublist_skip. }
  destruct ev as [change | change n]; simpl.
  - unfold message_broadcast. destruct (message_frame change) as [m |];
      [| apply sublist_nil_l].
    apply Hgen. intros c. unfold message_send_to, ws_send.
    case_decide; [| by left]. destruct (_ || _); eauto.
  - unfold group_broadcast. destruct (group_frame change n) as [m |];
      [| apply sublist_nil_l].
    apply Hgen. intros c. unfold group_send_to, ws_send. case_decide; eauto.
Qed.

(** What a dispatch hands to the sessions other than [s] is the same with
    and without [s] in the registry. *)
Lemma dispatch_clients_delete ev s cs :
  dispatch ev (clients_delete s cs) = filter (λ x, x.1 ≠ s) (dispatch ev cs).
Proof.
  assert (∀ (f : ClientInfo → list (nat * WsMessage)),
            (∀ c, f c = [] ∨ ∃ m, f c = [(sock (ws c), m)]) →
            clients_delete s cs ≫= f = filter (λ x, x.1 ≠ s) (cs ≫= f)) as Hgen.
  { intros f Hf. induction cs as [| c cs IH]; [done |].
    rewrite bind_cons, filter_app, <- IH. unfold clients_delete at 1.
    rewrite filter_cons. fold (clients_delete s cs).
    destruct (Hf c) as [Hc | [m Hc]].
    - rewrite Hc. case_decide; [rewrite bind_cons, Hc |]; done.
    - rewrite Hc, filter_cons. simpl. case_decide.
      + by rewrite bind_cons, Hc, filter_nil.
      + by rewrite filter_nil. }
  destruct ev as [change | change n]; simpl.
  - unfold message_broadcast. destruct (message_frame change) as [m |]; [| done].
    apply Hgen. intros c. unfold message_send_to, ws_send.
    case_decide; [| by left]. destruct (_ || _); eauto.
  - unfold group_broadcast. destruct (group_frame change n) as [m |]; [| done].
    apply Hgen. intros c. unfold group_send_to, ws_send. case_decide; eauto.
Qed.

(** C7, as the specification states it, fails on the code: the only
    registered session is handed the frame, its outbound buffer does not
    take it ([accepts] answers [false]), and the session is still
    registered after the dispatch. *)
Lemma C7_unresponsive_session_stays_registered :
  let h := hub_run [Connection 1] in
  let ev := MessageChange (mkChange OpInsert "m1" (Some message_m1)) in
  let c := mkClientInfo (mkWebSocket 1 OPEN) [] in
  let m := mkWsMessage "new_message" (MessagePayload (Some message_m1)) in
  let accepts : nat → bool := λ _, false in
  reachable h ∧ c ∈ clients h ∧ receives ev (clients h) c m ∧
  accepts (sock (ws c)) = false ∧
  ¬ (c ∉ clients (hub_step h (Change ev))).
Proof.
  simpl. split_and!.
  - change (reachable (hub_step hub_init (Connection 1))).
    apply reachable_step; [apply reachable_init | apply not_elem_of_nil].
  - apply list_elem_of_singleton. done.
  - unfold receives. simpl. apply list_elem_of_singleton. done.
  - done.
  - intros Hn. apply Hn. apply list_elem_of_singleton. done.
Qed.

(** C7 (amended): the server does not detect a session whose outbound
    buffer does not take a frame. A dispatch leaves the registry as it is
    and hands a frame to a session at most once; a registered session
    leaves the registry only by the close or the error event of its own
    connection; and what a dispatch hands to the other sessions is the
    same whether or not a session is in the registry. *)
Theorem C7_dispatch_never_unregisters h ev :
  reachable h →
  clients (hub_step h (Change ev)) = clients h ∧
  NoDup (dispatch ev (clients h)).*1 ∧
  (∀ e c, c ∈ clients h → sock (ws c) ∉ socks (clients (hub_step h e)) →
          e = Close (sock (ws c)) ∨ e = Error (sock (ws c))) ∧
  (∀ s, dispatch ev (clients_delete s (clients h))
        = filter (λ x, x.1 ≠ s) (dispatch ev (clients h))).
Proof.
  intros Hreach. apply reachable_inv in Hreach as [Hnd _]. split_and!.
  - done.
  - eapply sublist_NoDup; [exact Hnd | apply dispatch_socks_sublist].
  - intros e c Hc Hout.
    assert (∀ s, sock (ws c) ∉ socks (clients_delete s (clients h)) → s = sock (ws c)) as Hdel.
    { intros s Hs. destruct (decide (s = sock (ws c))) as [| Hne]; [done |].
      exfalso. apply Hs, elem_of_socks, list_elem_of_filter. split; [congruence | done]. }
    destruct e as [s | s data | s | s | s st | ev' | change]; simpl in Hout.
    + exfalso. apply Hout. unfold socks. rewrite fmap_app. apply elem_of_app. left.
      by apply elem_of_socks.
    + exfalso. apply Hout. rewrite socks_update_client by done. by apply elem_of_socks.
    + left. f_equal. by apply Hdel.
    + right. f_equal. by apply Hdel.
    + exfalso. apply Hout. rewrite socks_update_client by done. by apply elem_of_socks.
    + exfalso. apply Hout. by apply elem_of_socks.
    + exfalso. apply Hout. unfold activatedChats_on_change.
      destruct (operationType change), (fullDocument change); by apply elem_of_socks.
  - intros s. apply dispatch_clients_delete.
Qed.

Lemma C7_dispatch_never_unregisters_witness :
  let h := hub_run [Connection 1] in
  let ev := MessageChange (mkChange OpInsert "m1" (Some message_m1)) in
  reachable h ∧ clients (hub_step h (Change ev)) = clients h.
Proof.
  simpl.
  assert (reachable (hub_run [Connection 1])) as Hr.
  { change (reachable (hub_step hub_init (Connection 1))).
    apply reachable_step; [apply reachable_init | apply not_elem_of_nil]. }
  split; [exact Hr |].
  exact (proj1 (C7_dispatch_never_unregisters (hub_run [Connection 1])
                  (MessageChange (mkChange OpInsert "m1" (Some message_m1))) Hr)).
Defined.

End Delivery.

Section Sessions.

Lemma clients_delete_idemp s cs :
  clients_delete s (clients_delete s cs) = clients_delete s cs.
Proof.
  unfold clients_delete. rewrite list_filter_filter.
  apply list_filter_iff. tauto.
Qed.

(** C9: the close and the error handler of a connection both remove its
    session from the registry; after either of them the session is gone,
    running either of them once more changes nothing, and a session of
    another connection is registered after the removal exactly when it was
    before. *)
Theorem C9_unregister_idempotent s h :
  ws_on_error s h = ws_on_close s h ∧
  (s ∉ socks (clients (ws_on_close s h))) ∧
  ws_on_close s (ws_on_close s h) = ws_on_close s h ∧
  ws_on_error s (ws_on_close s h) = ws_on_close s h ∧
  ws_on_close s (ws_on_error s h) = ws_on_error s h ∧
  ws_on_error s (ws_on_error s h) = ws_on_error s h ∧
  (∀ c, sock (ws c) ≠ s → (c ∈ clients (ws_on_close s h) ↔ c ∈ clients h)) ∧
  sent (ws_on_close s h) = sent h.
Proof.
  unfold ws_on_error, ws_on_close. simpl. rewrite clients_delete_idemp.
  split_and!; try done.
  - unfold socks, clients_delete. intros (c & Hs & Hc)%list_elem_of_fmap.
    apply list_elem_of_filter in Hc as [Hne _]. by apply Hne.
  - intros c Hne. unfold clients_delete. rewrite list_elem_of_filter. tauto.
Qed.

Lemma update_client_lookup s f cs i c' :
  update_client s f cs !! i = Some c' ↔
  ∃ c, cs !! i = Some c ∧ c' = if decide (sock (ws c) = s) then f c else c.
Proof.
  unfold update_client. rewrite list_lookup_fmap. split.
  - intros (c & Hc & ->)%fmap_Some. eauto.
  - intros (c & Hc & ->). by rewrite Hc.
Qed.

Lemma ill_formed_ignored data : ill_formed data → control_of data = Ignored.
Proof.
  intros [-> | [-> | (t & c & -> & H)]]; try done. unfold control_of.
  destruct H as [[Hs Hu] | Hc].
  - destruct t as [| | | | s0 |]; try done.
    repeat (destruct s0 as [| [[] [] [] [] [] [] [] []] s0]; try done).
  - rewrite Hc. destruct t as [| | | | s0 |]; try done.
    repeat (destruct s0 as [| [[] [] [] [] [] [] [] []] s0]; try done).
Qed.

(** C10: a control frame that is not JSON, or whose type is neither
    subscribe nor unsubscribe, or whose [chatId] is missing or falsy,
    leaves the whole server state as it is. A subscribe frame with a truthy
    [chatId] adds that value to the set of the session that received it,
    an unsubscribe frame with a truthy [chatId] removes it, and in both
    cases no other member of that set and no other session changes, no
    session is registered or unregistered and nothing is sent. *)
Theorem C10_control_frames s data h :
  (ill_formed data ∨
   (∃ v, data = Some (MValue (VStr "subscribe") v) ∧ truthy v = true) ∨
   (∃ v, data = Some (MValue (VStr "unsubscribe") v) ∧ truthy v = true)) ∧
  (ill_formed data → ws_on_message s data h = h) ∧
  sent (ws_on_message s data h) = sent h ∧
  ws <$> clients (ws_on_message s data h) = ws <$> clients h ∧
  (∀ i c c', clients h !! i = Some c →
     clients (ws_on_message s data h) !! i = Some c' →
     (sock (ws c) ≠ s → c' = c) ∧
     (sock (ws c) = s →
        (∀ v, data = Some (MValue (VStr "subscribe") v) → truthy v = true →
              ∀ x, x ∈ subscribedChats c' ↔ x = v ∨ x ∈ subscribedChats c) ∧
        (∀ v, data = Some (MValue (VStr "unsubscribe") v) → truthy v = true →
              ∀ x, x ∈ subscribedChats c' ↔ x ∈ subscribedChats c ∧ x ≠ v))).
Proof.
  split_and!.
  - unfold ill_formed. destruct data as [[| t c] |]; [by auto | | by auto].
    destruct (truthy c) eqn:Hc; [| by left; right; right; eauto].
    destruct (decide (t = VStr "subscribe")) as [-> | Hs]; [by right; left; eauto |].
    destruct (decide (t = VStr "unsubscribe")) as [-> | Hu]; [by right; right; eauto |].
    left. right. right. exists t, c. split; [done |]. by left.
  - intros Hill. apply ill_formed_ignored in Hill.
    unfold ws_on_message. destruct h as [cs snt pnd]. simpl. f_equal.
    unfold update_client. rewrite <- (list_fmap_id cs) at 2.
    apply list_fmap_ext. intros i c _. case_decide; [| done].
    rewrite on_message_control, Hill. by destruct c.
  - done.
  - simpl. unfold update_client. rewrite <- list_fmap_compose.
    apply list_fmap_ext. intros i c _. simpl. by case_decide.
  - intros i c c' Hc Hc'. simpl in Hc'.
    apply update_client_lookup in Hc' as (c0 & Hc0 & ->).
    rewrite Hc in Hc0. injection Hc0 as <-. split.
    + intros Hne. by rewrite decide_False.
    + intros Heq. rewrite decide_True by done. simpl. split.
      * intros v -> Hv x. rewrite on_message_control. simpl. rewrite Hv.
        apply elem_of_set_add.
      * intros v -> Hv x. rewrite on_message_control. simpl. rewrite Hv.
        apply elem_of_set_delete.
Qed.

Lemma C10_control_frames_witness :
  let h := hub_run [Connection 1; Connection 2; Inbound 2 (subscribe_frame 7)] in
  ill_formed (subscribe_frame 0) ∧ ws_on_message 1 (subscribe_frame 0) h = h ∧
  clients (ws_on_message 1 (subscribe_frame 42) h) !! 0
    = Some (mkClientInfo (mkWebSocket 1 OPEN) [VNum 42%Z]) ∧
  (∀ x, x ∈ [VNum 42%Z] ↔ x = VNum 42%Z ∨ x ∈ []).
Proof.
  simpl.
  assert (ill_formed (subscribe_frame 0)) as Hill.
  { right. right. exists (VStr "subscribe"), (VNum 0%Z). split; [reflexivity |].
    right. reflexivity. }
  split_and!; [exact Hill | | reflexivity |].
  - exact (proj1 (proj2 (C10_control_frames 1 (subscribe_frame 0)
                    (hub_run [Connection 1; Connection 2; Inbound 2 (subscribe_frame 7)])))
                 Hill).
  - exact (proj1 (proj2 (proj2 (proj2 (proj2 (proj2
             (C10_control_frames 1 (subscribe_frame 42)
                (hub_run [Connection 1; Connection 2; Inbound 2 (subscribe_frame 7)])))))
             0 (mkClientInfo (mkWebSocket 1 OPEN) [])
             (mkClientInfo (mkWebSocket 1 OPEN) [VNum 42%Z])
             eq_refl eq_refl) eq_refl)
           (VNum 42%Z) eq_refl eq_refl).
Defined.

End Sessions.

(** * Proofs, part II: the index synchronizer *)

Section IndexStore.
Implicit Types (index : gmap string IndexDocument.t) (docs : list IndexDocument.t).

Lemma to_index_document_id d doc :
  to_index_document d = Ok doc →
  IndexDocument.id doc = MessageDocument._id d.
Proof.
  unfold to_index_document. destruct (iso_or_self (MessageDocument.date d)); [| done].
  destruct (iso_or_self (MessageDocument.logged_at d)); [| done].
  simpl. by intros [= <-].
Qed.

Lemma lookup_upsert docs index k :
  foldl (λ m d, <[IndexDocument.id d := d]> m) index docs !! k
  = last_with_key k (index !! k) docs.
Proof.
  revert index. induction docs as [| d docs IH]; intros index; [done |].
  simpl. rewrite IH. unfold last_with_key. f_equal. apply lookup_insert.
Qed.

Lemma last_with_key_const k docs o :
  last_with_key k o docs = o ∨ ∀ o', last_with_key k o' docs = last_with_key k o docs.
Proof.
  revert o. induction docs as [| d docs IH]; intros o; [by left |].
  unfold last_with_key. simpl. case_decide; [by right |]. apply IH.
Qed.

Lemma upsert_twice docs index :
  let upsert := foldl (λ m d, <[IndexDocument.id d := d]> m) in
  upsert (upsert index docs) docs = upsert index docs.
Proof.
  simpl. apply map_eq. intros k. rewrite !lookup_upsert.
  destruct (last_with_key_const k docs (index !! k)) as [H | H].
  - by rewrite H.
  - apply H.
Qed.

Lemma upsert_present docs index :
  (∀ d, d ∈ docs → index !! IndexDocument.id d = Some d) →
  foldl (λ m d, <[IndexDocument.id d := d]> m) index docs = index.
Proof.
  induction docs as [| d docs IH]; intros H; [done |].
  simpl. rewrite insert_id by (apply H; left). apply IH.
  intros d' Hd'. apply H. by right.
Qed.

Lemma upsert_size docs index :
  NoDup (IndexDocument.id <$> docs) →
  (∀ d, d ∈ docs → index !! IndexDocument.id d = None) →
  size (foldl (λ m d, <[IndexDocument.id d := d]> m) index docs)
  = size index + length docs.
Proof.
  revert index. induction docs as [| d docs IH]; intros index Hnd Hfresh.
  { simpl. lia. }
  rewrite fmap_cons in Hnd. apply NoDup_cons in Hnd as [Hd Hnd].
  simpl. rewrite IH; [| done |].
  - rewrite map_size_insert_None by (apply Hfresh; left). lia.
  - intros d' Hd'. rewrite lookup_insert_ne.
    + apply Hfresh. by right.
    + intros Heq. apply Hd. rewrite Heq. apply list_elem_of_fmap. eauto.
Qed.

End IndexStore.

Section Incremental.
Implicit Types (st : SyncState) (change : ChangeStreamDocument MessageDocument.t).
#[local] Arguments watch_on_change : simpl never.
#[local] Arguments index_view : simpl never.

(** An insert or update notification with a record whose transform
    succeeds, while the index store is up: the document is upserted. *)
Lemma watch_on_change_upsert st op k d doc :
  op = OpInsert ∨ op = OpUpdate → to_index_document d = Ok doc →
  watch_on_change st (mkChange op k (Some d), true)
  = mkSyncState (<[MessageDocument._id d := doc]> (index st))
      (log st ++ [LogIndexed op (MessageDocument._id d)]).
Proof.
  intros Hop Hdoc. unfold watch_on_change, apply_change. simpl.
  rewrite Hdoc. rewrite <- (to_index_document_id _ _ Hdoc).
  by destruct Hop as [-> | ->].
Qed.

Lemma watch_on_change_delete st k o :
  watch_on_change st (mkChange OpDelete k o, true)
  = mkSyncState (delete k (index st)) (log st ++ [LogDeleted k]).
Proof. done. Qed.

Lemma index_view_Some d doc : to_index_document d = Ok doc → index_view (Some d) = Some doc.
Proof. intros H. unfold index_view. simpl. by rewrite H. Qed.

(** C4: for every sequence of inserts, updates and deletes applied to the
    record of one identity, starting from an index that agrees with the
    store at that identity, feeding the notifications of the sequence to
    the change handler in feed order leaves at that identity exactly the
    transform of the final record (nothing when the record is gone), and
    leaves every other identity of the index as it was. The records of the
    sequence are ones whose transform does not raise and the index store
    takes every request. *)
Theorem C4_final_state_equivalence k s0 st ops :
  index st !! k = index_view s0 → Forall op_indexable ops →
  index (watchAndSync st ((λ e, (e, true)) <$> (store_run k s0 ops).2)) !! k
    = index_view (store_run k s0 ops).1 ∧
  (∀ k', k' ≠ k →
     index (watchAndSync st ((λ e, (e, true)) <$> (store_run k s0 ops).2)) !! k'
       = index st !! k').
Proof.
  intros Hagree Hops. revert s0 st Hagree.
  induction Hops as [| op ops Hop _ IH]; intros s0 st Hagree; [done |].
  cbn [store_run]. cbn beta zeta. cbn [fst snd].
  rewrite fmap_app. unfold watchAndSync. rewrite foldl_app.
  fold (watchAndSync (foldl watch_on_change st ((λ e, (e, true)) <$> (store_step k s0 op).2))
          ((λ e, (e, true)) <$> (store_run k (store_step k s0 op).1 ops).2)).
  set (st1 := foldl watch_on_change st ((λ e, (e, true)) <$> (store_step k s0 op).2)).
  assert (index st1 !! k = index_view (store_step k s0 op).1 ∧
          ∀ k', k' ≠ k → index st1 !! k' = index st !! k') as [H1 H1'].
  { subst st1. unfold store_step.
    destruct op as [d | d |], s0 as [d0 |]; try case_decide;
      cbn [fst snd fmap list_fmap foldl]; try done.
    - destruct Hop as [doc Hdoc].
      rewrite (watch_on_change_upsert _ _ _ _ doc) by auto. cbn [index]. subst k. split.
      + rewrite lookup_insert_eq. by rewrite (index_view_Some _ doc).
      + intros k' Hk'. by rewrite lookup_insert_ne.
    - destruct Hop as [doc Hdoc].
      rewrite (watch_on_change_upsert _ _ _ _ doc) by auto. cbn [index]. subst k. split.
      + rewrite lookup_insert_eq. by rewrite (index_view_Some _ doc).
      + intros k' Hk'. by rewrite lookup_insert_ne.
    - rewrite watch_on_change_delete. cbn [index]. split.
      + apply lookup_delete_eq.
      + intros k' Hk'. by rewrite lookup_delete_ne. }
  destruct (IH _ _ H1) as [IH1 IH2]. split; [done |].
  intros k' Hk'. rewrite IH2 by done. by apply H1'.
Qed.

Lemma C4_final_state_equivalence_witness :
  let ops := [SInsert message_m1; SDelete; SDelete; SInsert message_m1;
              SUpdate message_m1] in
  let st := mkSyncState ∅ [] in
  index st !! "m1" = index_view None ∧ Forall op_indexable ops ∧
  index (watchAndSync st ((λ e, (e, true)) <$> (store_run "m1" None ops).2)) !! "m1"
    = index_view (Some message_m1).
Proof.
  simpl.
  assert (index (mkSyncState ∅ []) !! "m1" = index_view None) as H0 by reflexivity.
  assert (indexable message_m1) as Hm by (eexists; reflexivity).
  assert (Forall op_indexable [SInsert message_m1; SDelete; SDelete;
                               SInsert message_m1; SUpdate message_m1]) as Hops.
  { repeat constructor; exact Hm. }
  split_and!; [exact H0 | exact Hops |].
  exact (proj1 (C4_final_state_equivalence "m1" None (mkSyncState ∅ []) _ H0 Hops)).
Defined.

(** The handler on one notification, against [failure_of] and
    [index_effect]. *)
Lemma apply_change_failure change up idx e :
  apply_change change up idx = Throw e ↔ failure_of (change, up) = Some e.
Proof.
  unfold apply_change, failure_of. cbn [fst snd].
  destruct (operationType change), (fullDocument change) as [fd |];
    try destruct (to_index_document fd) as [doc | e']; destruct up; cbn;
    split; congruence.
Qed.

Lemma watch_on_change_index st ev :
  index (watch_on_change st ev)
  = match failure_of ev with
    | Some _ => index st
    | None => index_effect ev.1 (index st)
    end.
Proof.
  destruct ev as [change up]. unfold watch_on_change, apply_change, failure_of, index_effect.
  cbn [fst snd index].
  destruct (operationType change), (fullDocument change) as [fd |]; try done;
    try (destruct (to_index_document fd) as [doc | e'] eqn:Hd; [| done]);
    destruct up; cbn; try done.
  all: by rewrite (to_index_document_id _ _ Hd).
Qed.

(** C8: in incremental mode, (1) a delete for an identity that the index
    does not hold leaves the index as it is and, when the request reaches
    the store, logs the delete and no failure; (2) a notification whose
    transform or index request raises is logged and leaves the index as it
    is, and the run goes on with the rest of the feed; (3) the handler
    raises exactly on the notifications whose transform raises or whose
    request the index store rejects; (4) the events that follow a failure
    are processed with their full effect: an insert or update right after
    it upserts its document, a delete right after it removes its key, and
    after any feed the index is the one obtained by skipping every failing
    notification and applying every other one in feed order. *)
Theorem C8_skip_and_continue :
  (∀ st change up,
     operationType change = OpDelete → index st !! documentKey change = None →
     index (watch_on_change st (change, up)) = index st ∧
     (up = true →
      log (watch_on_change st (change, up)) = log st ++ [LogDeleted (documentKey change)])) ∧
  (∀ st change up e feed,
     apply_change change up (index st) = Throw e →
     watch_on_change st (change, up) = mkSyncState (index st) (log st ++ [LogFailed e]) ∧
     watchAndSync st ((change, up) :: feed)
       = watchAndSync (mkSyncState (index st) (log st ++ [LogFailed e])) feed) ∧
  (∀ change fd e up idx,
     operationType change = OpInsert ∨ operationType change = OpUpdate →
     fullDocument change = Some fd → to_index_document fd = Throw e →
     apply_change change up idx = Throw e) ∧
  (∀ change idx,
     (operationType change = OpDelete ∨
      ((operationType change = OpInsert ∨ operationType change = OpUpdate) ∧
       ∃ fd, fullDocument change = Some fd ∧ indexable fd)) →
     apply_change change false idx = Throw IndexStoreError) ∧
  (∀ change up idx e,
     apply_change change up idx = Throw e ↔ failure_of (change, up) = Some e) ∧
  (∀ st bad up e op k d doc,
     apply_change bad up (index st) = Throw e →
     op = OpInsert ∨ op = OpUpdate → to_index_document d = Ok doc →
     index (watchAndSync st [(bad, up); (mkChange op k (Some d), true)])
     = <[MessageDocument._id d := doc]> (index st)) ∧
  (∀ st bad up e k o,
     apply_change bad up (index st) = Throw e →
     index (watchAndSync st [(bad, up); (mkChange OpDelete k o, true)])
     = delete k (index st)) ∧
  (∀ st feed, index (watchAndSync st feed) = skip_failures (index st) feed).
Proof.
  split_and!.
  - intros st change up Hop Hk. unfold watch_on_change, apply_change. simpl.
    rewrite Hop. destruct up; simpl; [| done]. by rewrite delete_id.
  - intros st change up e feed He.
    assert (watch_on_change st (change, up)
            = mkSyncState (index st) (log st ++ [LogFailed e])) as Hw.
    { unfold watch_on_change. cbn [fst snd]. by rewrite He. }
    split; [done |]. cbn [watchAndSync foldl]. by rewrite Hw.
  - intros change fd e up idx Hop Hfd He. unfold apply_change.
    rewrite Hfd, He. by destruct Hop as [-> | ->].
  - intros change idx [Hop | [Hop (fd & Hfd & doc & Hdoc)]]; unfold apply_change.
    + by rewrite Hop.
    + rewrite Hfd, Hdoc. by destruct Hop as [-> | ->].
  - apply apply_change_failure.
  - intros st bad up e op k d doc He Hop Hdoc. cbn [watchAndSync foldl].
    apply apply_change_failure in He.
    rewrite (watch_on_change_upsert _ _ _ _ doc) by done. cbn [index].
    by rewrite watch_on_change_index, He.
  - intros st bad up e k o He. cbn [watchAndSync foldl].
    apply apply_change_failure in He.
    rewrite watch_on_change_delete. cbn [index].
    by rewrite watch_on_change_index, He.
  - intros st feed. revert st. unfold skip_failures.
    induction feed as [| ev feed IH]; intros st; [done |].
    cbn [watchAndSync foldl].
    fold (watchAndSync (watch_on_change st ev) feed).
    by rewrite IH, watch_on_change_index.
Qed.

End Incremental.

Section Backfill.
Implicit Types (store : list MessageDocument.t) (docs : list IndexDocument.t).

Lemma mapM_transforms store :
  Forall indexable store →
  ∃ docs, mapM to_index_document store = Ok docs ∧ transforms store docs.
Proof.
  induction 1 as [| m store [doc Hdoc] _ (docs & Hdocs & IH)].
  - exists []. split; [done | constructor].
  - exists (doc :: docs). split; [| by constructor].
    cbn [mapM]. rewrite Hdoc. cbn. rewrite Hdocs. done.
Qed.

Lemma transforms_ids store docs :
  transforms store docs → IndexDocument.id <$> docs = MessageDocument._id <$> store.
Proof.
  induction 1 as [| m d store docs Hd _ IH]; [done |].
  rewrite !fmap_cons, IH. f_equal. by apply to_index_document_id.
Qed.

Lemma transforms_elem store docs d :
  transforms store docs → d ∈ docs → ∃ m, m ∈ store ∧ to_index_document m = Ok d.
Proof.
  induction 1 as [| m d' store docs Hd _ IH]; intros Hin.
  - by apply not_elem_of_nil in Hin.
  - apply elem_of_cons in Hin as [-> | Hin].
    + exists m. split; [left | done].
    + destruct (IH Hin) as (m' & Hm' & Hd'). exists m'. split; [by right | done].
Qed.

(** The number of batches: the division rounded up. *)
Lemma div_up_step n B :
  0 < B → 0 < n → (n + B - 1) / B = S ((n - B + B - 1) / B).
Proof.
  intros HB Hn. destruct (decide (n ≤ B)) as [Hle | Hgt].
  - replace (n - B) with 0 by lia. simpl.
    rewrite (Nat.div_small (B - 1) B) by lia.
    assert (n + B - 1 = 1 * B + (n - 1)) as -> by lia.
    rewrite Nat.div_add_l by lia. rewrite Nat.div_small by lia. lia.
  - assert (n + B - 1 = 1 * B + (n - B + B - 1)) as -> by lia.
    rewrite Nat.div_add_l by lia. lia.
Qed.

(** The loop from offset [skip], with enough fuel: it ends, having sent
    the transforms of the records from [skip] on, in batches of at most
    [BATCH_SIZE] documents. *)
Lemma sync_loop_spec store B fuel skip r :
  0 < B → Forall indexable store → length store - skip < fuel →
  ∃ docs bs,
    transforms (drop skip store) docs ∧ concat bs = docs ∧
    length bs = (length docs + B - 1) / B ∧
    Forall (λ b, 0 < length b ≤ B) bs ∧
    sync_loop fuel store B (length store) (λ _, true) skip r
    = Some (Ok (mkSyncResult (processed r + length docs) (batches r ++ bs)
                  (foldl (λ m d, <[IndexDocument.id d := d]> m) (synced r) docs))).
Proof.
  intros HB Hstore. revert skip r.
  induction fuel as [| fuel IH]; intros skip r Hfuel; [lia |].
  cbn [sync_loop]. destruct (decide (skip < length store)) as [Hlt | Hge].
  - unfold find_page, cursor_limit.
    destruct (B =? 0) eqn:HB0; [apply Nat.eqb_eq in HB0; lia |].
    set (messages := take B (drop skip store)).
    assert (length messages = B `min` (length store - skip)) as Hlen.
    { subst messages. by rewrite length_take, length_drop. }
    destruct (length messages =? 0) eqn:Hz; [apply Nat.eqb_eq in Hz; lia |].
    destruct (mapM_transforms messages) as (docs1 & Hmap & Hdocs1).
    { subst messages. by apply Forall_take, Forall_drop. }
    rewrite Hmap. cbn.
    destruct (IH (skip + B)
                (mkSyncResult (processed r + length messages) (batches r ++ [docs1])
                   (foldl (λ m d, <[IndexDocument.id d := d]> m) (synced r) docs1)))
      as (docs2 & bs2 & Hdocs2 & Hcat & Hcount & Hsizes & Hrun); [lia |].
    rewrite Hrun. cbn [processed batches synced].
    assert (length docs1 = length messages) as Hl1 by (symmetry; by eapply Forall2_length).
    assert (length docs2 = length store - skip - B) as Hl2.
    { rewrite <- (Forall2_length _ _ _ Hdocs2), length_drop. lia. }
    exists (docs1 ++ docs2), (docs1 :: bs2). split_and!.
    + rewrite <- (take_drop B (drop skip store)). apply Forall2_app; [done |].
      by rewrite drop_drop.
    + simpl. by rewrite Hcat.
    + simpl. rewrite Hcount, length_app, Hl1, Hl2, Hlen.
      rewrite (div_up_step (_ + _) B); [| lia | lia]. do 2 f_equal. lia.
    + constructor; [lia | done].
    + rewrite length_app, foldl_app, <- app_assoc. do 3 f_equal. lia.
  - exists [], []. rewrite drop_ge by lia. split_and!.
    + apply Forall2_nil_2.
    + done.
    + simpl. by rewrite Nat.div_small by lia.
    + done.
    + destruct r. simpl. by rewrite Nat.add_0_r, app_nil_r.
Qed.

(** The whole backfill, with enough fuel. *)
Lemma syncMessages_spec store B fuel idx :
  0 < B → Forall indexable store → length store < fuel →
  ∃ docs bs,
    transforms store docs ∧ concat bs = docs ∧
    length bs = (length store + B - 1) / B ∧
    Forall (λ b, 0 < length b ≤ B) bs ∧
    syncMessages fuel store B (λ _, true) idx
    = Some (Ok (mkSyncResult (length store) bs
                  (foldl (λ m d, <[IndexDocument.id d := d]> m) idx docs))).
Proof.
  intros HB Hstore Hfuel. unfold syncMessages.
  destruct (length store =? 0) eqn:Hz.
  - apply Nat.eqb_eq in Hz. apply nil_length_inv in Hz as Hnil. subst store.
    exists [], []. split_and!; try done.
    + apply Forall2_nil_2.
    + simpl. by rewrite Nat.div_small by lia.
  - destruct (sync_loop_spec store B fuel 0 (mkSyncResult 0 [] idx))
      as (docs & bs & Hdocs & Hcat & Hcount & Hsizes & Hrun); [done | done | lia |].
    rewrite drop_0 in Hdocs. exists docs, bs.
    assert (length docs = length store) as Hl by (symmetry; by eapply Forall2_length).
    split_and!; try done; [by rewrite <- Hl |].
    rewrite Hrun. simpl. by rewrite Hl.
Qed.


(** C6: with a positive batch size, records whose transform does not
    raise and an index store that takes every request, the backfill ends;
    it counts every record, sends the transform of every record exactly
    once and in order, in [ceil (total / BATCH_SIZE)] batches of at most
    [BATCH_SIZE] documents; into an empty index, records of distinct
    identities make that many documents. For 2,500 records and batches of
    1,000 that is 2,500 documents in 3 batches. *)
Theorem C6_backfill_batches store B idx fuel :
  0 < B → Forall indexable store → length store < fuel →
  ∃ r, syncMessages fuel store B (λ _, true) idx = Some (Ok r) ∧
       processed r = length store ∧
       length (batches r) = (length store + B - 1) / B ∧
       transforms store (concat (batches r)) ∧
       Forall (λ b, 0 < length b ≤ B) (batches r) ∧
       (idx = ∅ → NoDup (MessageDocument._id <$> store) →
        size (synced r) = length store) ∧
       (length store = 2500 → B = 1000 →
        processed r = 2500 ∧ length (batches r) = 3 ∧
        length (concat (batches r)) = 2500).
Proof.
  intros HB Hstore Hfuel.
  destruct (syncMessages_spec store B fuel idx HB Hstore Hfuel)
    as (docs & bs & Hdocs & Hcat & Hcount & Hsizes & Hrun).
  eexists. split; [exact Hrun |]. cbn [processed batches synced].
  assert (length docs = length store) as Hl by (symmetry; by eapply Forall2_length).
  split_and!; try done.
  - by rewrite Hcat.
  - intros -> Hnd. rewrite upsert_size.
    + rewrite map_size_empty. lia.
    + by rewrite (transforms_ids store).
    + intros d _. apply lookup_empty.
  - intros H2500 ->. rewrite Hcount, Hcat, Hl, H2500. done.
Qed.

Lemma C6_backfill_batches_witness :
  0 < 1000 ∧ Forall indexable (sample_store 2500) ∧
  length (sample_store 2500) < 2501 ∧
  ∃ r, syncMessages 2501 (sample_store 2500) 1000 (λ _, true) ∅ = Some (Ok r) ∧
       processed r = 2500 ∧ length (batches r) = 3.
Proof.
  assert (0 < 1000) as HB by lia.
  assert (Forall indexable (sample_store 2500)) as Hs.
  { unfold sample_store. apply Forall_fmap, Forall_forall. intros i _.
    eexists. reflexivity. }
  assert (length (sample_store 2500) = 2500) as Hl.
  { unfold sample_store. rewrite length_fmap. apply length_seq. }
  assert (length (sample_store 2500) < 2501) as Hf by (rewrite Hl; lia).
  split_and!; [exact HB | exact Hs | exact Hf |].
  destruct (C6_backfill_batches (sample_store 2500) 1000 ∅ 2501 HB Hs Hf)
    as (r & Hrun & _ & _ & _ & _ & _ & H).
  exists r. split; [exact Hrun |].
  destruct (H Hl eq_refl) as (Hp & Hb & _). split; [exact Hp | exact Hb].
Defined.

(** C5: the upserts are idempotent by identity. With a positive batch
    size, records whose transform does not raise and an index store that
    takes every request, the backfill ends, a second backfill over the
    same records ends and leaves the index as the first left it, and a
    backfill over records whose transforms the index already holds leaves
    the index as it was. A change notification applied once more, after
    the index store took its first application, leaves the index as the
    first application left it. *)
Theorem C5_upserts_idempotent store B idx fuel :
  0 < B → Forall indexable store → length store < fuel →
  (∃ r r', syncMessages fuel store B (λ _, true) idx = Some (Ok r) ∧
           syncMessages fuel store B (λ _, true) (synced r) = Some (Ok r') ∧
           synced r' = synced r ∧
           ((∀ m d, m ∈ store → to_index_document m = Ok d →
                    idx !! MessageDocument._id m = Some d) →
            synced r = idx)) ∧
  (∀ st change up,
     index (watch_on_change (watch_on_change st (change, true)) (change, up))
     = index (watch_on_change st (change, true))).
Proof.
  intros HB Hstore Hfuel. split.
  - destruct (syncMessages_spec store B fuel idx HB Hstore Hfuel)
      as (docs & bs & Hdocs & _ & _ & _ & Hrun).
    destruct (syncMessages_spec store B fuel
                (foldl (λ m d, <[IndexDocument.id d := d]> m) idx docs)
                HB Hstore Hfuel)
      as (docs' & bs' & Hdocs' & _ & _ & _ & Hrun').
    assert (docs' = docs) as ->.
    { clear -Hdocs Hdocs'. unfold transforms in *. revert docs' Hdocs'.
      induction Hdocs as [| m d store docs Hd _ IH]; intros docs' Hdocs'.
      - by apply Forall2_nil_inv_l in Hdocs'.
      - apply Forall2_cons_inv_l in Hdocs' as (d' & docs'' & Hd' & Hrest & ->).
        f_equal; [congruence | by apply IH]. }
    eexists _, _. split; [exact Hrun |]. cbn [synced].
    split; [exact Hrun' |]. cbn [synced]. split; [apply upsert_twice |].
    intros Hheld. apply upsert_present. intros d Hd.
    destruct (transforms_elem _ _ _ Hdocs Hd) as (m & Hm & Hmd).
    rewrite (to_index_document_id _ _ Hmd). by apply Hheld.
  - intros st [op k fd] up. unfold watch_on_change, apply_change.
    cbn [fst snd operationType fullDocument documentKey].
    destruct op, fd as [d |]; try done;
      try destruct (to_index_document d) as [doc | e]; destruct up; cbn;
      by rewrite ?insert_insert_eq, ?delete_delete_eq.
Qed.

Lemma C5_upserts_idempotent_witness :
  0 < 1000 ∧ Forall indexable (sample_store 5) ∧ length (sample_store 5) < 6 ∧
  ∃ r r', syncMessages 6 (sample_store 5) 1000 (λ _, true) ∅ = Some (Ok r) ∧
          syncMessages 6 (sample_store 5) 1000 (λ _, true) (synced r) = Some (Ok r') ∧
          synced r' = synced r.
Proof.
  assert (0 < 1000) as HB by lia.
  assert (Forall indexable (sample_store 5)) as Hs.
  { unfold sample_store. apply Forall_fmap, Forall_forall. intros i _.
    eexists. reflexivity. }
  assert (length (sample_store 5) < 6) as Hf by (simpl; lia).
  split_and!; [exact HB | exact Hs | exact Hf |].
  destruct (proj1 (C5_upserts_idempotent (sample_store 5) 1000 ∅ 6 HB Hs Hf))
    as (r & r' & H1 & H2 & H3 & _).
  exists r, r'. split_and!; [exact H1 | exact H2 | exact H3].
Defined.

End Backfill.

(** * Proofs, part III: further properties of the WebSocket server *)

Section HubProperties.

Lemma reachable_run_1 e : enabled hub_init e → reachable (hub_run [e]).
Proof. intros H. by apply (reachable_step hub_init e); [apply reachable_init |]. Qed.

(** X1: in every reachable state of the server the registry holds at most
    one session per connection, and every subscription set is free of
    duplicates and holds truthy values only (never [0], the empty string,
    [null], [false] or [undefined]). *)
Theorem registry_invariant h :
  reachable h →
  NoDup (socks (clients h)) ∧
  ∀ c, c ∈ clients h →
    NoDup (subscribedChats c) ∧ ∀ v, v ∈ subscribedChats c → truthy v = true.
Proof.
  intros Hr. destruct (reachable_inv h Hr) as [Hnd Hsubs]. split; [done |].
  intros c Hc. eapply Forall_forall in Hsubs as [Hn Ht]; [| exact Hc].
  split; [done |]. intros v Hv. by eapply Forall_forall in Ht.
Qed.

Lemma registry_invariant_witness :
  let h := hub_run [Connection 1; Inbound 1 (subscribe_frame 42)] in
  reachable h ∧ NoDup (socks (clients h)).
Proof.
  simpl.
  assert (reachable (hub_run [Connection 1; Inbound 1 (subscribe_frame 42)])) as Hr.
  { apply reachable_run_2; simpl; [| done]. apply not_elem_of_nil. }
  split; [exact Hr |].
  exact (proj1 (registry_invariant
                  (hub_run [Connection 1; Inbound 1 (subscribe_frame 42)]) Hr)).
Defined.

Lemma set_delete_absent v s : v ∉ s → set_delete v s = s.
Proof.
  unfold set_delete. induction s as [| x s IH]; intros Hv; [done |].
  apply not_elem_of_cons in Hv as [Hne Hv]. rewrite filter_cons.
  rewrite decide_True by done. by rewrite IH.
Qed.

Lemma set_delete_add v s : v ∉ s → set_delete v (set_add v s) = s.
Proof.
  intros Hv. unfold set_add, set_has. rewrite bool_decide_eq_false_2 by done.
  unfold set_delete. rewrite filter_app, filter_cons, filter_nil.
  rewrite decide_False by (intros H; by apply H).
  rewrite app_nil_r. by apply set_delete_absent.
Qed.

Lemma set_add_present v s : v ∈ s → set_add v s = s.
Proof. intros Hv. unfold set_add, set_has. by rewrite bool_decide_eq_true_2. Qed.

(** X2: on the subscription set of a session, for a truthy [chatId]:
    subscribing twice is subscribing once; unsubscribing after subscribing
    to a chat that was not subscribed gives back the set as it was, order
    included; after an unsubscribe the chat is not in the set, and a second
    unsubscribe changes nothing. *)
Theorem subscribe_unsubscribe_round_trip v subs :
  truthy v = true →
  let sub := Some (MValue (VStr "subscribe") v) in
  let unsub := Some (MValue (VStr "unsubscribe") v) in
  on_message sub (on_message sub subs) = on_message sub subs ∧
  v ∈ on_message sub subs ∧
  (v ∉ subs → on_message unsub (on_message sub subs) = subs) ∧
  (v ∉ on_message unsub subs) ∧
  on_message unsub (on_message unsub subs) = on_message unsub subs.
Proof.
  intros Hv. cbn zeta. rewrite !on_message_control. simpl. rewrite Hv.
  assert (v ∈ set_add v subs) as Hin by (apply elem_of_set_add; by left).
  assert (v ∉ set_delete v subs) as Hout.
  { intros [_ H]%elem_of_set_delete. by apply H. }
  split_and!.
  - by apply set_add_present.
  - done.
  - apply set_delete_add.
  - done.
  - by apply set_delete_absent.
Qed.

Lemma subscribe_unsubscribe_round_trip_witness :
  truthy (VNum 42) = true ∧
  on_message (unsubscribe_frame 42) (on_message (subscribe_frame 42) [VNum 7%Z])
  = [VNum 7%Z].
Proof.
  split; [reflexivity |].
  apply (proj1 (proj2 (proj2
           (subscribe_unsubscribe_round_trip (VNum 42) [VNum 7%Z] eq_refl)))).
  intros [H | H%not_elem_of_nil]%elem_of_cons; [discriminate H | exact H].
Defined.

(** X3: the server sends nothing on its own: a step of the server only
    appends to what was sent, and every frame it appends is the frame of a
    broadcast that runs at that step (a notification of [messages], or a
    suspended call of the [activated_chats] handler resuming with its
    count), handed to a session that is registered and whose connection is
    open at that step. Connections, control frames, closes, errors and
    notifications of a kind the handlers do not treat (such as [replace])
    send nothing; the notification of an activated chat sends nothing
    itself, since its handler is suspended at [await countDocuments]; and
    a call that resumes with the rejection of [countDocuments] sends
    nothing. *)
Theorem frames_only_for_change_events h e :
  ∃ frames,
    sent (hub_step h e) = sent h ++ frames ∧
    (∀ x, x ∈ frames →
       ∃ ev m c, e = Change ev ∧ frame_of ev = Some m ∧ x = (sock (ws c), m) ∧
                 c ∈ clients h ∧ readyState (ws c) = OPEN) ∧
    (∀ change, e = ActivatedChatNotification change → frames = []) ∧
    (∀ change err, e = Change (ActivatedChatChange change (Throw err)) → frames = []).
Proof.
  destruct e as [s | s data | s | s | s st | ev | change];
    try (exists []; split; [by rewrite app_nil_r |];
         split_and!; [by intros x ?%not_elem_of_nil | done | done]).
  - exists (dispatch ev (clients h)). split; [done |]. split_and!.
    + intros x (m & c & Hm & Hc & -> & Ho & _)%elem_of_dispatch.
      by exists ev, m, c.
    + done.
    + intros change err [= ->]. simpl. unfold group_broadcast, group_frame.
      by destruct (operationType change), (fullDocument change).
  - exists []. split.
    + rewrite app_nil_r. simpl. unfold activatedChats_on_change.
      by destruct (operationType change), (fullDocument change).
    + split_and!; [by intros x ?%not_elem_of_nil | done | done].
Qed.

(** X4: the frames of one dispatch go out in the order in which the
    sessions registered, and all of them are the one frame of the event. *)
Theorem dispatch_in_registration_order ev cs :
  (dispatch ev cs).*1 `sublist_of` socks cs ∧
  ∀ x, x ∈ dispatch ev cs → frame_of ev = Some x.2.
Proof.
  split; [apply dispatch_socks_sublist |].
  by intros x (m & c & Hm & _ & -> & _)%elem_of_dispatch.
Qed.

(** X5: an insert or update notification of [messages] that carries no
    document (the lookup of the updated record found nothing) is still
    broadcast: it has a frame, whose payload on the wire is the empty
    object, and in a reachable state a registered session is handed that
    frame exactly when its connection is open and it has no subscription
    at all. *)
Theorem notification_without_document h change c :
  reachable h → c ∈ clients h →
  operationType change = OpInsert ∨ operationType change = OpUpdate →
  fullDocument change = None →
  ∃ m, message_frame change = Some m ∧
       payload m = MessagePayload None ∧
       payload_json (payload m) = [] ∧
       (receives (MessageChange change) (clients h) c m ↔
          readyState (ws c) = OPEN ∧ subscribedChats c = []).
Proof.
  intros Hr Hc Hop Hfd.
  assert (∃ m, message_frame change = Some m ∧ payload m = MessagePayload None)
    as (m & Hm & Hp).
  { unfold message_frame. rewrite Hfd. destruct Hop as [-> | ->]; eauto. }
  exists m. split_and!; [done | done | by rewrite Hp |].
  rewrite (routing_by_payload h (MessageChange change) m c Hr Hm Hc).
  unfold channel_of. rewrite Hp. simpl.
  destruct (reachable_inv h Hr) as [_ Hall].
  eapply Forall_forall in Hall as [_ Ht]; [| exact Hc].
  split.
  - intros [Ho [He | [Hin | Hg]]]; [done | | done].
    eapply Forall_forall in Ht; [| exact Hin]. done.
  - intros [Ho He]. split; [done | by left].
Qed.

Lemma notification_without_document_witness :
  let h := hub_run [Connection 1] in
  let change := mkChange OpUpdate "m1" None in
  let c := mkClientInfo (mkWebSocket 1 OPEN) [] in
  reachable h ∧ c ∈ clients h ∧
  ∃ m, message_frame change = Some m ∧ payload_json (payload m) = [] ∧
       receives (MessageChange change) (clients h) c m.
Proof.
  simpl.
  assert (reachable (hub_run [Connection 1])) as Hr.
  { apply reachable_run_1. apply not_elem_of_nil. }
  assert (mkClientInfo (mkWebSocket 1 OPEN) [] ∈ clients (hub_run [Connection 1])) as Hc.
  { apply list_elem_of_singleton. reflexivity. }
  split_and!; [exact Hr | exact Hc |].
  destruct (notification_without_document _ (mkChange OpUpdate "m1" None) _
              Hr Hc (or_intror eq_refl) eq_refl) as (m & Hm & _ & Hj & Hiff).
  exists m. split_and!; [exact Hm | exact Hj |].
  apply Hiff. split; reflexivity.
Defined.

(** X18: unsubscribing from the only subscribed chat does not silence a
    session, it makes it a global listener: in a reachable state, once an
    open session whose set is the single chat [v] has sent the unsubscribe
    frame for [v], its set is empty and it is handed the frame of every
    change event that is dispatched, whatever its channel. *)
Theorem unsubscribing_last_chat_makes_global h c v ev m :
  reachable h → c ∈ clients h → subscribedChats c = [v] →
  readyState (ws c) = OPEN → frame_of ev = Some m →
  let h' := hub_step h (Inbound (sock (ws c)) (Some (MValue (VStr "unsubscribe") v))) in
  mkClientInfo (ws c) [] ∈ clients h' ∧
  (sock (ws c), m) ∈ dispatch ev (clients h').
Proof.
  intros Hr Hc Hsubs Ho Hm. cbn zeta.
  destruct (reachable_inv h Hr) as [_ Hall].
  eapply Forall_forall in Hall as [_ Ht]; [| exact Hc].
  rewrite Hsubs in Ht. apply (proj1 (Forall_singleton _ _)) in Ht.
  assert (mkClientInfo (ws c) []
            ∈ clients (hub_step h (Inbound (sock (ws c))
                                     (Some (MValue (VStr "unsubscribe") v))))) as Hin.
  { simpl. unfold update_client. apply list_elem_of_fmap. exists c. split; [| done].
    simpl. case_decide; [| done]. f_equal. rewrite Hsubs, on_message_control.
    simpl. rewrite Ht. unfold set_delete. rewrite filter_cons, filter_nil.
    by rewrite decide_False by (intros Hne; by apply Hne). }
  split; [done |]. apply elem_of_dispatch.
  exists m, (mkClientInfo (ws c) []). split_and!; try done. right. by left.
Qed.

Lemma unsubscribing_last_chat_makes_global_witness :
  let h := hub_run [Connection 1; Inbound 1 (subscribe_frame 42)] in
  let c := mkClientInfo (mkWebSocket 1 OPEN) [VNum 42%Z] in
  let ev := MessageChange (mkChange OpInsert "m1" (Some message_m1)) in
  let m := mkWsMessage "new_message" (MessagePayload (Some message_m1)) in
  reachable h ∧ c ∈ clients h ∧
  (1, m) ∈ dispatch ev (clients (hub_step h (Inbound 1 (unsubscribe_frame 42)))).
Proof.
  simpl.
  assert (reachable (hub_run [Connection 1; Inbound 1 (subscribe_frame 42)])) as Hr.
  { apply reachable_run_2; simpl; [| done]. apply not_elem_of_nil. }
  assert (mkClientInfo (mkWebSocket 1 OPEN) [VNum 42%Z]
            ∈ clients (hub_run [Connection 1; Inbound 1 (subscribe_frame 42)])) as Hc.
  { apply list_elem_of_singleton. reflexivity. }
  split_and!; [exact Hr | exact Hc |].
  exact (proj2 (unsubscribing_last_chat_makes_global _ _ (VNum 42)
                  (MessageChange (mkChange OpInsert "m1" (Some message_m1))) _
                  Hr Hc eq_refl eq_refl eq_refl)).
Defined.

End HubProperties.

(** * Proofs, part IV: further properties of the index synchronizer *)

Section IndexProperties.
Implicit Types (st : SyncState) (change : ChangeStreamDocument MessageDocument.t)
  (store : list MessageDocument.t).

Lemma to_index_document_throws d e : to_index_document d = Throw e → e = RangeError.
Proof.
  unfold to_index_document.
  destruct (MessageDocument.date d) as [[s |] | v]; simpl; [| congruence |];
    destruct (MessageDocument.logged_at d) as [[s' |] | v']; simpl; congruence.
Qed.

(** X6: a notification changes at most the entry of its own identity in
    the index (the key of a delete, the [_id] of the document of an insert
    or update), whether or not its request reaches the index store; and a
    notification of a kind the handler does not treat (such as [replace]),
    or an insert or update without a document, changes neither the index
    nor the log. *)
Theorem notification_touches_own_key st change up :
  (operationType change = OpReplace ∨ operationType change = OpOther ∨
   (operationType change ≠ OpDelete ∧ fullDocument change = None) →
   watch_on_change st (change, up) = st) ∧
  (∀ k,
     (operationType change = OpDelete → k ≠ documentKey change) →
     (operationType change ≠ OpDelete →
      ∀ fd, fullDocument change = Some fd → k ≠ MessageDocument._id fd) →
     index (watch_on_change st (change, up)) !! k = index st !! k).
Proof.
  destruct change as [op key fd]. unfold watch_on_change, apply_change.
  cbn [fst snd operationType fullDocument documentKey]. split.
  - intros H. destruct st as [idx lg].
    assert (∀ l : list LogLine, mkSyncState idx (lg ++ []) = mkSyncState idx lg) as Hnil
      by (intros _; by rewrite app_nil_r).
    destruct op, fd as [d |]; simpl; try done; naive_solver.
  - intros k Hdel Hups.
    destruct op, fd as [d |]; try done; cbn [try_catch mbind Exc_bind fst index].
    + specialize (Hups ltac:(done) d eq_refl).
      destruct (to_index_document d) as [doc | e] eqn:Hd; [| done].
      destruct up; cbn; [| done]. rewrite lookup_insert_ne; [done |].
      by rewrite (to_index_document_id _ _ Hd).
    + specialize (Hups ltac:(done) d eq_refl).
      destruct (to_index_document d) as [doc | e] eqn:Hd; [| done].
      destruct up; cbn; [| done]. rewrite lookup_insert_ne; [done |].
      by rewrite (to_index_document_id _ _ Hd).
    + destruct up; cbn; [| done]. rewrite lookup_delete_ne; [done |].
      intros ->. by apply Hdel.
    + destruct up; cbn; [| done]. rewrite lookup_delete_ne; [done |].
      intros ->. by apply Hdel.
Qed.

Lemma watch_inserts store docs st :
  transforms store docs →
  index (watchAndSync st ((λ m, (insert_notification m, true)) <$> store))
  = foldl (λ m d, <[IndexDocument.id d := d]> m) (index st) docs.
Proof.
  intros H. revert st. induction H as [| m d store docs Hd _ IH]; intros st; [done |].
  rewrite fmap_cons. cbn [watchAndSync foldl]. unfold insert_notification at 1.
  rewrite (watch_on_change_upsert _ _ _ _ d) by auto.
  fold (watchAndSync
          (mkSyncState (<[MessageDocument._id m := d]> (index st))
             (log st ++ [LogIndexed OpInsert (MessageDocument._id m)]))
          ((λ m, (insert_notification m, true)) <$> store)).
  rewrite IH. cbn [index]. by rewrite (to_index_document_id _ _ Hd).
Qed.

(** X7: backfill and incremental mode agree: with a positive batch size,
    records whose transform does not raise and an index store that takes
    every request, the index after the backfill of a store is the index
    the change handler builds from the insert notifications of the same
    records, fed in the order of the store. *)
Theorem backfill_is_replay_of_inserts store B idx lg fuel :
  0 < B → Forall indexable store → length store < fuel →
  ∃ r, syncMessages fuel store B (λ _, true) idx = Some (Ok r) ∧
       synced r
       = index (watchAndSync (mkSyncState idx lg)
                  ((λ m, (insert_notification m, true)) <$> store)).
Proof.
  intros HB Hstore Hfuel.
  destruct (syncMessages_spec store B fuel idx HB Hstore Hfuel)
    as (docs & bs & Hdocs & _ & _ & _ & Hrun).
  eexists. split; [exact Hrun |]. cbn [synced].
  by rewrite (watch_inserts store docs).
Qed.

Lemma backfill_is_replay_of_inserts_witness :
  0 < 2 ∧ Forall indexable (sample_store 5) ∧ length (sample_store 5) < 6 ∧
  ∃ r, syncMessages 6 (sample_store 5) 2 (λ _, true) ∅ = Some (Ok r) ∧
       synced r
       = index (watchAndSync (mkSyncState ∅ [])
                  ((λ m, (insert_notification m, true)) <$> sample_store 5)).
Proof.
  assert (0 < 2) as HB by lia.
  assert (Forall indexable (sample_store 5)) as Hs.
  { unfold sample_store. apply Forall_fmap, Forall_forall. intros i _.
    eexists. reflexivity. }
  assert (length (sample_store 5) < 6) as Hf by (simpl; lia).
  split_and!; [exact HB | exact Hs | exact Hf |].
  exact (backfill_is_replay_of_inserts (sample_store 5) 2 ∅ [] 6 HB Hs Hf).
Defined.

Lemma mapM_result store :
  (∃ docs, mapM to_index_document store = Ok docs ∧ Forall indexable store) ∨
  (mapM to_index_document store = Throw RangeError ∧
   ∃ m, m ∈ store ∧ ¬ indexable m).
Proof.
  induction store as [| m store IH]; [left; by exists [] |].
  cbn [mapM]. destruct (to_index_document m) as [d | e] eqn:Hd.
  - destruct IH as [(docs & -> & Hall) | [-> (m' & Hm' & Hbad)]]; cbn.
    + left. eexists. split; [done |]. constructor; [by exists d | done].
    + right. split; [done |]. exists m'. split; [by right | done].
  - apply to_index_document_throws in Hd as Hr. subst e. cbn. right. split; [done |].
    exists m. split; [left |]. intros [doc Hdoc]. congruence.
Qed.

Lemma sync_loop_aborts store B fuel up skip r m :
  0 < B → length store - skip < fuel → m ∈ drop skip store → ¬ indexable m →
  ∃ e, sync_loop fuel store B (length store) up skip r = Some (Throw e) ∧
       ((∀ n, up n = true) → e = RangeError).
Proof.
  intros HB. revert skip r.
  induction fuel as [| fuel IH]; intros skip r Hfuel Hm Hbad; [lia |].
  assert (skip < length store) as Hlt.
  { destruct (decide (skip < length store)) as [| Hge]; [done |].
    rewrite drop_ge in Hm by lia. by apply not_elem_of_nil in Hm. }
  cbn [sync_loop]. rewrite decide_True by done.
  unfold find_page, cursor_limit.
  destruct (B =? 0) eqn:HB0; [apply Nat.eqb_eq in HB0; lia |].
  set (messages := take B (drop skip store)).
  assert (length messages = B `min` (length store - skip)) as Hlen.
  { subst messages. by rewrite length_take, length_drop. }
  destruct (length messages =? 0) eqn:Hz; [apply Nat.eqb_eq in Hz; lia |].
  destruct (mapM_result messages) as [(docs & -> & Hall) | [-> _]]; cbn.
  - assert (m ∈ drop (skip + B) store) as Hm'.
    { rewrite <- (take_drop B (drop skip store)) in Hm.
      apply elem_of_app in Hm as [Hm | Hm].
      - exfalso. apply Hbad. by eapply Forall_forall in Hall.
      - by rewrite drop_drop in Hm. }
    destruct (up (length (batches r))) eqn:Hup; cbn.
    + apply IH; [lia | done | done].
    + eexists. split; [done |]. intros Hall'. rewrite Hall' in Hup. discriminate.
  - eexists. split; done.
Qed.

(** X8: the backfill has no skip-and-log: with a positive batch size, one
    record whose transform raises (an invalid [Date]) makes the whole
    backfill end with an exception, whatever the index store does, and
    that exception is the [RangeError] of the transform when the index
    store takes every request. *)
Theorem backfill_aborts_on_bad_record store B up idx fuel m :
  0 < B → length store < fuel → m ∈ store → ¬ indexable m →
  ∃ e, syncMessages fuel store B up idx = Some (Throw e) ∧
       ((∀ n, up n = true) → e = RangeError).
Proof.
  intros HB Hfuel Hm Hbad. unfold syncMessages.
  destruct (length store =? 0) eqn:Hz.
  { apply Nat.eqb_eq, nil_length_inv in Hz. subst store.
    by apply not_elem_of_nil in Hm. }
  apply (sync_loop_aborts store B fuel up 0 _ m); [done | lia | by rewrite drop_0 | done].
Qed.

Lemma backfill_aborts_on_bad_record_witness :
  let bad := MessageDocument.mk "bad" VUndefined (VNum 42) (DateObj None) VUndefined
               VUndefined VUndefined (NotDate VUndefined) VUndefined in
  let store := sample_store 3 ++ [bad] in
  0 < 2 ∧ length store < 5 ∧ bad ∈ store ∧ ¬ indexable bad ∧
  ∃ e, syncMessages 5 store 2 (λ _, true) ∅ = Some (Throw e).
Proof.
  cbn zeta.
  set (bad := MessageDocument.mk "bad" VUndefined (VNum 42) (DateObj None) VUndefined
                VUndefined VUndefined (NotDate VUndefined) VUndefined).
  assert (0 < 2) as HB by lia.
  assert (length (sample_store 3 ++ [bad]) < 5) as Hf by (simpl; lia).
  assert (bad ∈ sample_store 3 ++ [bad]) as Hin.
  { apply elem_of_app. right. apply list_elem_of_singleton. reflexivity. }
  assert (¬ indexable bad) as Hbad by (intros [doc Hdoc]; discriminate Hdoc).
  split_and!; [exact HB | exact Hf | exact Hin | exact Hbad |].
  destruct (backfill_aborts_on_bad_record (sample_store 3 ++ [bad]) 2 (λ _, true) ∅ 5 bad
              HB Hf Hin Hbad) as (e & He & _).
  exists e. exact He.
Defined.



(** X10: the transform of a record raises exactly when its [date] or its
    [logged_at] is an invalid [Date], and then with [RangeError]. When it
    does not raise, the document takes its primary key [id] and its [_id]
    from the [_id] of the record, its two dates read as [JSON.stringify]
    writes them, and its [was_edited] is the flag of the record when that
    is truthy and [false] otherwise, so it is never left undefined. *)
Theorem transform_failure_characterised d :
  (indexable d ↔
     MessageDocument.date d ≠ DateObj None ∧
     MessageDocument.logged_at d ≠ DateObj None) ∧
  (∀ e, to_index_document d = Throw e → e = RangeError) ∧
  (∀ doc, to_index_document d = Ok doc →
     IndexDocument.id doc = MessageDocument._id d ∧
     IndexDocument._id doc = MessageDocument._id d ∧
     IndexDocument.date doc = date_json (MessageDocument.date d) ∧
     IndexDocument.logged_at doc = date_json (MessageDocument.logged_at d) ∧
     IndexDocument.was_edited doc
     = (if truthy (MessageDocument.was_edited d)
        then MessageDocument.was_edited d else VBool false) ∧
     IndexDocument.was_edited doc ≠ VUndefined).
Proof.
  split_and!.
  - unfold indexable, to_index_document.
    destruct (MessageDocument.date d) as [[s |] | v];
      destruct (MessageDocument.logged_at d) as [[s' |] | v']; simpl;
      split; try (intros [doc H]; discriminate H); try (intros [? ?]; done);
      intros _; try (split; done); eexists; reflexivity.
  - apply to_index_document_throws.
  - intros doc. unfold to_index_document.
    destruct (MessageDocument.date d) as [[s |] | v];
      destruct (MessageDocument.logged_at d) as [[s' |] | v']; simpl;
      try discriminate; intros [= <-]; simpl; split_and!; try done;
      (destruct (truthy (MessageDocument.was_edited d)) eqn:Ht; [| done];
       intros Hu; rewrite Hu in Ht; discriminate Ht).
Qed.

Lemma transforms_functional store docs docs' :
  transforms store docs → transforms store docs' → docs = docs'.
Proof.
  intros H. revert docs'. induction H as [| m d store docs Hd _ IH]; intros docs' H'.
  - by apply Forall2_nil_inv_l in H'.
  - apply Forall2_cons_inv_l in H' as (d' & docs'' & Hd' & Hrest & ->).
    f_equal; [congruence | by apply IH].
Qed.

(** X11: the batch size changes the batching only: with records whose
    transform does not raise and an index store that takes every request,
    two backfills of the same store with any two positive batch sizes end
    with the same index, the same count and the same documents sent, in
    the same order. *)
Theorem backfill_independent_of_batch_size store B1 B2 idx fuel :
  0 < B1 → 0 < B2 → Forall indexable store → length store < fuel →
  ∃ r1 r2,
    syncMessages fuel store B1 (λ _, true) idx = Some (Ok r1) ∧
    syncMessages fuel store B2 (λ _, true) idx = Some (Ok r2) ∧
    synced r1 = synced r2 ∧ processed r1 = processed r2 ∧
    concat (batches r1) = concat (batches r2).
Proof.
  intros H1 H2 Hstore Hfuel.
  destruct (syncMessages_spec store B1 fuel idx H1 Hstore Hfuel)
    as (docs1 & bs1 & Hdocs1 & Hcat1 & _ & _ & Hrun1).
  destruct (syncMessages_spec store B2 fuel idx H2 Hstore Hfuel)
    as (docs2 & bs2 & Hdocs2 & Hcat2 & _ & _ & Hrun2).
  assert (docs1 = docs2) as <- by by eapply transforms_functional.
  eexists _, _. split; [exact Hrun1 |]. split; [exact Hrun2 |].
  cbn [synced processed batches]. split_and!; [done | done | congruence].
Qed.

Lemma backfill_independent_of_batch_size_witness :
  0 < 2 ∧ 0 < 1000 ∧ Forall indexable (sample_store 5) ∧ length (sample_store 5) < 6 ∧
  ∃ r1 r2,
    syncMessages 6 (sample_store 5) 2 (λ _, true) ∅ = Some (Ok r1) ∧
    syncMessages 6 (sample_store 5) 1000 (λ _, true) ∅ = Some (Ok r2) ∧
    synced r1 = synced r2.
Proof.
  assert (0 < 2) as H1 by lia.
  assert (0 < 1000) as H2 by lia.
  assert (Forall indexable (sample_store 5)) as Hs.
  { unfold sample_store. apply Forall_fmap, Forall_forall. intros i _.
    eexists. reflexivity. }
  assert (length (sample_store 5) < 6) as Hf by (simpl; lia).
  split_and!; [exact H1 | exact H2 | exact Hs | exact Hf |].
  destruct (backfill_independent_of_batch_size (sample_store 5) 2 1000 ∅ 6 H1 H2 Hs Hf)
    as (r1 & r2 & Hr1 & Hr2 & Heq & _).
  exists r1, r2. split_and!; [exact Hr1 | exact Hr2 | exact Heq].
Defined.

End IndexProperties.

(** * Proofs, part V: the dashboard client *)

Section Client.
Implicit Types (subscribers : gmap Z (list nat)) (callbacks : list nat).

Lemma subscribe_insert chatId callback subscribers :
  subscribe chatId callback subscribers
  = <[chatId := callbacks_add callback (default [] (subscribers !! chatId))]> subscribers.
Proof.
  unfold subscribe. destruct (subscribers !! chatId) as [callbacks |] eqn:Hc.
  - rewrite bool_decide_eq_true_2 by eauto. by rewrite Hc.
  - rewrite bool_decide_eq_false_2 by (intros [? ?]; done).
    rewrite lookup_insert_eq. simpl. by rewrite insert_insert_eq.
Qed.

Lemma callbacks_add_inv callback callbacks :
  NoDup callbacks →
  callbacks_add callback callbacks ≠ [] ∧ NoDup (callbacks_add callback callbacks).
Proof.
  intros Hnd. unfold callbacks_add. case_bool_decide as Hin.
  - split; [| done]. intros ->. by apply not_elem_of_nil in Hin.
  - split; [by destruct callbacks |]. apply NoDup_app. split_and!; [done | | apply NoDup_singleton].
    intros x Hx ->%list_elem_of_singleton. done.
Qed.

Lemma callbacks_delete_absent callback callbacks :
  callback ∉ callbacks → callbacks_delete callback callbacks = callbacks.
Proof.
  unfold callbacks_delete. induction callbacks as [| x l IH]; intros Hc; [done |].
  apply not_elem_of_cons in Hc as [Hne Hc]. rewrite filter_cons.
  rewrite decide_True by done. by rewrite IH.
Qed.

(** X12: the map of subscribers never keeps a chat with an empty set of
    callbacks and never holds a callback twice for a chat: [subscribe] and
    the unsubscribe function it returns both keep this, from the empty map
    on. *)
Theorem provider_subscribers_invariant chatId callback subscribers :
  subscribers_inv subscribers →
  subscribers_inv (subscribe chatId callback subscribers) ∧
  subscribers_inv (unsubscribe chatId callback subscribers).
Proof.
  intros Hinv. split.
  - rewrite subscribe_insert. intros c cbs Hc.
    destruct (decide (chatId = c)) as [-> | Hne].
    + rewrite lookup_insert_eq in Hc. injection Hc as <-.
      apply callbacks_add_inv. destruct (subscribers !! c) as [l |] eqn:Hl; simpl.
      * by apply (Hinv c l).
      * apply NoDup_nil_2.
    + rewrite lookup_insert_ne in Hc by done. by apply (Hinv c cbs).
  - unfold unsubscribe. destruct (subscribers !! chatId) as [l |] eqn:Hl; [| done].
    destruct (length (callbacks_delete callback l) =? 0) eqn:Hz; intros c cbs Hc.
    + destruct (decide (chatId = c)) as [-> | Hne].
      * by rewrite lookup_delete_eq in Hc.
      * rewrite lookup_delete_ne in Hc by done. by apply (Hinv c cbs).
    + destruct (decide (chatId = c)) as [-> | Hne].
      * rewrite lookup_insert_eq in Hc. injection Hc as <-. split.
        -- intros Hnil. rewrite Hnil in Hz. discriminate Hz.
        -- eapply sublist_NoDup; [apply (Hinv c l Hl) | apply sublist_filter].
      * rewrite lookup_insert_ne in Hc by done. by apply (Hinv c cbs).
Qed.

Lemma subscribers_inv_empty : subscribers_inv ∅.
Proof. intros c cbs Hc. by rewrite lookup_empty in Hc. Qed.

Lemma provider_subscribers_invariant_witness :
  subscribers_inv ∅ ∧ subscribers_inv (subscribe 42 1 ∅) ∧
  subscribers_inv (unsubscribe 42 1 ∅).
Proof.
  split; [exact subscribers_inv_empty |].
  exact (provider_subscribers_invariant 42 1 ∅ subscribers_inv_empty).
Defined.

(** X13: on a map kept by the provider, calling the unsubscribe function
    right after [subscribe], for a callback that was not subscribed to that
    chat, gives back the map as it was (a chat that had no subscriber has
    no entry again), and unsubscribing a callback that is not subscribed
    changes nothing. *)
Theorem provider_subscribe_round_trip chatId callback subscribers :
  subscribers_inv subscribers →
  callback ∉ default [] (subscribers !! chatId) →
  unsubscribe chatId callback (subscribe chatId callback subscribers) = subscribers ∧
  unsubscribe chatId callback subscribers = subscribers.
Proof.
  intros Hinv Hf. split.
  - rewrite subscribe_insert. unfold unsubscribe. rewrite lookup_insert_eq.
    unfold callbacks_add. rewrite bool_decide_eq_false_2 by done.
    unfold callbacks_delete. rewrite filter_app, filter_cons, filter_nil.
    rewrite decide_False by (intros H; by apply H). rewrite app_nil_r.
    fold (callbacks_delete callback (default [] (subscribers !! chatId))).
    rewrite callbacks_delete_absent by done.
    destruct (subscribers !! chatId) as [l |] eqn:Hl; simpl.
    + destruct (Hinv chatId l Hl) as [Hne _].
      destruct l as [| x l]; [done |]. simpl.
      rewrite insert_insert_eq. by apply insert_id.
    + rewrite delete_insert_eq. by apply delete_id.
  - unfold unsubscribe. destruct (subscribers !! chatId) as [l |] eqn:Hl; [| done].
    simpl in Hf. rewrite callbacks_delete_absent by done.
    destruct (Hinv chatId l Hl) as [Hne _].
    destruct l as [| x l]; [done |]. simpl. by apply insert_id.
Qed.

Lemma provider_subscribe_round_trip_witness :
  subscribers_inv ∅ ∧ (1 ∉ default [] ((∅ : gmap Z (list nat)) !! 42%Z)) ∧
  unsubscribe 42 1 (subscribe 42 1 ∅) = ∅.
Proof.
  assert (1 ∉ default [] ((∅ : gmap Z (list nat)) !! 42%Z)) as Hf.
  { rewrite lookup_empty. apply not_elem_of_nil. }
  split_and!; [exact subscribers_inv_empty | exact Hf |].
  exact (proj1 (provider_subscribe_round_trip 42 1 ∅ subscribers_inv_empty Hf)).
Defined.

Lemma prop_absent k (o : list (string * Value)) : k ∉ o.*1 → prop k o = VUndefined.
Proof.
  induction o as [| [k' v] o IH]; intros Hk; [done |].
  rewrite fmap_cons in Hk. apply not_elem_of_cons in Hk as [Hne Hk].
  simpl. rewrite decide_False by done. by apply IH.
Qed.

(** Leaving out the properties that are [undefined] does not change what
    any property reads. *)
Lemma prop_filter_undefined k (o : list (string * Value)) :
  NoDup o.*1 → prop k (filter (λ kv, kv.2 ≠ VUndefined) o) = prop k o.
Proof.
  induction o as [| [k' v] o IH]; intros Hnd; [done |].
  rewrite fmap_cons in Hnd. apply NoDup_cons in Hnd as [Hk' Hnd].
  rewrite filter_cons. simpl. destruct (decide (v ≠ VUndefined)) as [Hv | Hv].
  - simpl. case_decide; [done | by apply IH].
  - rewrite IH by done. case_decide as Hk; [| done].
    subst k'. apply dec_stable in Hv. subst v. by apply prop_absent.
Qed.

(** X14: how the provider routes the frames of the server. A [new_group]
    frame calls the callbacks subscribed under [-1] only. The frame of a
    delete notification has no [chat_id], so it calls the callbacks
    subscribed under [-1] only: a callback subscribed to the chat of the
    deleted message is not called. The frame of an insert or update
    notification with its document calls the callbacks of the chat of the
    document, then those subscribed under [-1]. *)
Theorem provider_routing_of_server_frames subscribers :
  (∀ change n m,
     group_frame change n = Some m →
     provider_on_message subscribers (received m)
     = default [] (subscribers !! (-1)%Z)) ∧
  (∀ change m,
     operationType change = OpDelete → message_frame change = Some m →
     provider_on_message subscribers (received m)
     = default [] (subscribers !! (-1)%Z)) ∧
  (∀ change d m,
     operationType change = OpInsert ∨ operationType change = OpUpdate →
     fullDocument change = Some d → message_frame change = Some m →
     provider_on_message subscribers (received m)
     = get_callbacks (MessageDocument.chat_id d) subscribers
       ++ default [] (subscribers !! (-1)%Z)).
Proof.
  split_and!.
  - intros change n m Hm. unfold group_frame in Hm.
    destruct (operationType change), (fullDocument change), n; try done.
    by injection Hm as <-.
  - intros change m Hop Hm. unfold message_frame in Hm. rewrite Hop in Hm.
    by injection Hm as <-.
  - intros change d m Hop Hd Hm. unfold message_frame in Hm. rewrite Hd in Hm.
    assert (messageType m ≠ "new_group" ∧ payload m = MessagePayload (Some d)) as [Ht Hp].
    { destruct Hop as [Hop | Hop]; rewrite Hop in Hm; by injection Hm as <-. }
    unfold provider_on_message, received. cbn [WebSocketMessage.type WebSocketMessage.payload].
    rewrite decide_False by done. rewrite Hp. unfold payload_json.
    rewrite prop_filter_undefined by (apply (bool_decide_unpack _); by vm_compute).
    simpl. f_equal. case_decide as Hu; [done |]. by rewrite Hu.
Qed.

(** X15: the dashboard page keeps one row per chat. A [new_group] frame
    for a chat that is listed changes nothing; a [new_group] frame for a
    chat that is not listed puts the group in front of the rows, which
    stay as they were; after a [new_group] frame the chat of the frame is
    listed in either case, so a repeated frame is harmless; chat ids that
    were distinct stay distinct; and a frame of another type changes
    nothing. *)
Theorem dashboard_new_group_dedup message prevGroups :
  let newGroup := WebSocketMessage.payload message in
  let listed (groups : list (list (string * Value))) :=
    Exists (λ g, prop "chat_id" g = prop "chat_id" newGroup) groups in
  (WebSocketMessage.type message = "new_group" →
   (listed prevGroups → dashboard_on_message message prevGroups = prevGroups) ∧
   (¬ listed prevGroups →
    dashboard_on_message message prevGroups = newGroup :: prevGroups) ∧
   listed (dashboard_on_message message prevGroups)) ∧
  dashboard_on_message message (dashboard_on_message message prevGroups)
  = dashboard_on_message message prevGroups ∧
  prevGroups `suffix_of` dashboard_on_message message prevGroups ∧
  (NoDup (prop "chat_id" <$> prevGroups) →
   NoDup (prop "chat_id" <$> dashboard_on_message message prevGroups)) ∧
  (WebSocketMessage.type message ≠ "new_group" →
   dashboard_on_message message prevGroups = prevGroups).
Proof.
  cbn zeta. unfold dashboard_on_message.
  destruct (decide (WebSocketMessage.type message = "new_group")) as [Ht | Ht];
    [| by split_and!].
  set (P := λ g : list (string * Value),
              prop "chat_id" g = prop "chat_id" (WebSocketMessage.payload message)).
  destruct (decide (Exists P prevGroups)) as [Hex | Hex].
  - rewrite !(bool_decide_eq_true_2 (Exists P prevGroups)) by done. by split_and!.
  - rewrite !(bool_decide_eq_false_2 (Exists P prevGroups)) by done.
    rewrite bool_decide_eq_true_2 by (by apply Exists_cons_hd). split_and!.
    + intros _. split_and!; [done | done | by apply Exists_cons_hd].
    + done.
    + by apply suffix_cons_r.
    + intros Hnd. rewrite fmap_cons. apply NoDup_cons. split; [| done].
      intros (g & Hg & Hin)%list_elem_of_fmap. apply Hex.
      apply Exists_exists. exists g. split; [done |]. unfold P. by symmetry.
    + done.
Qed.

(** X16: on the messages page an [update_message] frame never adds,
    removes or moves a row: the identities of the rows and the count are
    as before, every row is an old row or the payload, rows of another
    identity are untouched, and applying the frame twice is applying it
    once. *)
Theorem page_update_keeps_rows wsMessage st :
  WebSocketMessage.type wsMessage = "update_message" →
  let st' := page_on_message wsMessage st in
  prop "_id" <$> MessagesPage.messages st' = prop "_id" <$> MessagesPage.messages st ∧
  MessagesPage.total st' = MessagesPage.total st ∧
  (∀ i m, MessagesPage.messages st !! i = Some m →
     MessagesPage.messages st' !! i
     = Some (if decide (prop "_id" m = prop "_id" (WebSocketMessage.payload wsMessage))
             then WebSocketMessage.payload wsMessage else m)) ∧
  page_on_message wsMessage st' = st'.
Proof.
  intros Ht. cbn zeta. unfold page_on_message. rewrite Ht.
  rewrite (decide_False (P := "update_message" = "new_message")) by done.
  rewrite (decide_False (P := "update_message" = "delete_message")) by done.
  rewrite (decide_True (P := "update_message" = "update_message")) by done.
  cbn [MessagesPage.messages MessagesPage.total].
  split_and!.
  - rewrite <- list_fmap_compose. apply list_fmap_ext. intros i m _. simpl.
    by case_decide.
  - done.
  - intros i m Hm. by rewrite list_lookup_fmap, Hm.
  - f_equal. rewrite <- list_fmap_compose. apply list_fmap_ext. intros i m _. simpl.
    destruct (decide (prop "_id" m = prop "_id" (WebSocketMessage.payload wsMessage)))
      as [He | Hne].
    + by rewrite decide_True.
    + by rewrite decide_False.
Qed.

Lemma page_update_keeps_rows_witness :
  let row := [("_id", VStr "m1"); ("text", VStr "hi")] in
  let frame := WebSocketMessage.mk "update_message"
                 [("_id", VStr "m1"); ("text", VStr "hello")] in
  WebSocketMessage.type frame = "update_message" ∧
  MessagesPage.total (page_on_message frame (MessagesPage.mk [row] 1)) = 1%Z.
Proof.
  simpl. split; [reflexivity |].
  exact (proj1 (proj2 (page_update_keeps_rows
                         (WebSocketMessage.mk "update_message"
                            [("_id", VStr "m1"); ("text", VStr "hello")])
                         (MessagesPage.mk [[("_id", VStr "m1"); ("text", VStr "hi")]] 1)
                         eq_refl))).
Defined.

(** X17: on the messages page, a [delete_message] frame for the identity
    of a [new_message] frame undoes it exactly (rows and count), when no
    row of the page had that identity; and a [delete_message] frame for an
    identity that no row has leaves the rows as they are and still lowers
    the count by one. *)
Theorem page_insert_delete_round_trip new del st :
  WebSocketMessage.type new = "new_message" →
  WebSocketMessage.type del = "delete_message" →
  prop "id" (WebSocketMessage.payload del) = prop "_id" (WebSocketMessage.payload new) →
  (∀ m, m ∈ MessagesPage.messages st →
        prop "_id" m ≠ prop "id" (WebSocketMessage.payload del)) →
  page_on_message del (page_on_message new st) = st ∧
  page_on_message del st
  = MessagesPage.mk (MessagesPage.messages st) (MessagesPage.total st - 1).
Proof.
  intros Hn Hd Hid Hfresh. unfold page_on_message. rewrite Hn, Hd.
  rewrite (decide_True (P := "new_message" = "new_message")) by done.
  rewrite (decide_False (P := "delete_message" = "new_message")) by done.
  rewrite (decide_True (P := "delete_message" = "delete_message")) by done.
  cbn [MessagesPage.messages MessagesPage.total].
  assert (filter (λ m, prop "_id" m ≠ prop "id" (WebSocketMessage.payload del))
            (MessagesPage.messages st) = MessagesPage.messages st) as Hkeep.
  { induction (MessagesPage.messages st) as [| m l IH]; [done |].
    rewrite filter_cons. rewrite decide_True by (apply Hfresh; left).
    rewrite IH; [done |]. intros m' Hm'. apply Hfresh. by right. }
  split.
  - rewrite filter_cons. rewrite decide_False by (intros H; by apply H).
    rewrite Hkeep. destruct st as [ms t]. simpl. f_equal. lia.
  - by rewrite Hkeep.
Qed.

Lemma page_insert_delete_round_trip_witness :
  let new := WebSocketMessage.mk "new_message" [("_id", VStr "m1"); ("text", VStr "hi")] in
  let del := WebSocketMessage.mk "delete_message" [("id", VStr "m1")] in
  let st := MessagesPage.mk [[("_id", VStr "m0")]] 1 in
  page_on_message del (page_on_message new st) = st.
Proof.
  simpl.
  refine (proj1 (page_insert_delete_round_trip
                   (WebSocketMessage.mk "new_message" [("_id", VStr "m1"); ("text", VStr "hi")])
                   (WebSocketMessage.mk "delete_message" [("id", VStr "m1")])
                   (MessagesPage.mk [[("_id", VStr "m0")]] 1)
                   eq_refl eq_refl eq_refl _)).
  intros m [-> | H%not_elem_of_nil]%elem_of_cons; [discriminate | destruct H].
Defined.

End Client.
